(** * Hexapod inverse kinematics: the solver of [utils/hexapodLogic.ts]

    [solveHexapodIK] is a pure function over JavaScript numbers.  It is
    embedded once, over an abstract type of numbers ([Number]), and read at
    three instances:

    - [R], exact real arithmetic: the geometry the code computes when no
      rounding happens and no division by zero is met;
    - [jsnum], the reals extended with [+Infinity], [-Infinity] and [NaN]
      under the IEEE-754 rules: what the code does on a division by zero,
      and how a [NaN] travels through [Math.max], [Math.min], [Math.acos]
      and the arithmetic after them;
    - [float], the doubles themselves ([Double.double_number]): the
      arithmetic the program runs on, with its rounding, over a math library
      of which only the values fixed by ECMA-262 are known.

    The lemmas [js_...] relate the first two: with exact arithmetic on
    finite inputs, the result on [jsnum] is the real one except where the
    hypotenuse [c] of a leg is zero, the one place where the solver divides
    by a number that can vanish.

    [jsnum] has no rounding and no overflow, and a single zero, read as
    [+0]: a zero divisor gives the infinity of the sign of the dividend,
    which is right for [2 * dims.femur * c], [c] being a square root; and
    [atan2 0 a] for [a < 0] is [PI].  What is stated over [R] or [jsnum] is
    a statement of exact arithmetic; what rounding does to it is stated
    over [float]. *)

From Stdlib Require Import Reals Lra Lia List RNsatz.
Import ListNotations.

Set Implicit Arguments.

(** ** Numbers *)

Class Number (A : Type) : Type := {
  lit    : R -> A;          (* a numeric literal; [lit PI] is [Math.PI] *)
  nadd   : A -> A -> A;
  nsub   : A -> A -> A;
  nmul   : A -> A -> A;
  ndiv   : A -> A -> A;
  nneg   : A -> A;
  nsqrt  : A -> A;          (* Math.sqrt *)
  nsin   : A -> A;          (* Math.sin *)
  ncos   : A -> A;          (* Math.cos *)
  natan2 : A -> A -> A;     (* Math.atan2(y, x) *)
  nacos  : A -> A;          (* Math.acos *)
  nmax   : A -> A -> A;     (* Math.max *)
  nmin   : A -> A -> A      (* Math.min *)
}.

Declare Scope num_scope.
Delimit Scope num_scope with num.
Notation "a + b" := (nadd a b) : num_scope.
Notation "a - b" := (nsub a b) : num_scope.
Notation "a * b" := (nmul a b) : num_scope.
Notation "a / b" := (ndiv a b) : num_scope.
Notation "- a" := (nneg a) : num_scope.

(** ** The types of [types.ts] *)

Record HexapodDimensions (A : Type) : Type := {
  front : A; side : A; middle : A;
  coxa : A; femur : A; tibia : A
}.

Record BodyPose (A : Type) : Type := {
  tx : A; ty : A; tz : A;
  rx : A; ry : A; rz : A
}.

Record Point3D (A : Type) : Type := { x : A; y : A; z : A }.

(** [joints.coxa] and [joints.femur] are [coxaJoint] and [femurJoint] here:
    [coxa] and [femur] already name the fields of [HexapodDimensions]. *)
Record Joints (A : Type) : Type := {
  bodyContact : Point3D A;
  coxaJoint : Point3D A;
  femurJoint : Point3D A;
  foot : Point3D A
}.

Record LegConfiguration (A : Type) : Type := {
  legId : nat;
  coxaAngle : A;
  femurAngle : A;
  tibiaAngle : A;
  joints : Joints A
}.

Record HexapodConfiguration (A : Type) : Type := {
  legs : list (LegConfiguration A);
  bodyCorners : list (Point3D A)
}.

(** [Array.prototype.map] with the callback's second argument, the index. *)
Fixpoint mapi_from {X Y : Type} (f : X -> nat -> Y) (n : nat) (l : list X) : list Y :=
  match l with
  | [] => []
  | a :: l' => f a n :: mapi_from f (S n) l'
  end.

Definition mapi {X Y : Type} (f : X -> nat -> Y) (l : list X) : list Y :=
  mapi_from f 0 l.

(** ** [utils/hexapodLogic.ts] *)

Section Solver.

Context {A : Type} {num : Number A}.
Local Open Scope num_scope.

Definition MathPI : A := lit PI.

Definition toRad (deg : A) : A := (deg * MathPI) / lit 180.
Definition toDeg (rad : A) : A := (rad * lit 180) / MathPI.

Definition rotateX (p : Point3D A) (theta : A) : Point3D A :=
  {| x := x p;
     y := y p * ncos theta - z p * nsin theta;
     z := y p * nsin theta + z p * ncos theta |}.

Definition rotateY (p : Point3D A) (theta : A) : Point3D A :=
  {| x := x p * ncos theta + z p * nsin theta;
     y := y p;
     z := - x p * nsin theta + z p * ncos theta |}.

Definition rotateZ (p : Point3D A) (theta : A) : Point3D A :=
  {| x := x p * ncos theta - y p * nsin theta;
     y := x p * nsin theta + y p * ncos theta;
     z := z p |}.

Definition getLocalBodyPoints (dims : HexapodDimensions A) : list (Point3D A) :=
  let front := front dims in
  let side := side dims in
  let middle := middle dims in
  [ {| x := middle; y := lit 0; z := lit 0 |};      (* R Middle (Leg 0) *)
    {| x := side; y := - front; z := lit 0 |};      (* R Front (Leg 1) *)
    {| x := - side; y := - front; z := lit 0 |};    (* L Front (Leg 2) *)
    {| x := - middle; y := lit 0; z := lit 0 |};    (* L Middle (Leg 3) *)
    {| x := - side; y := front; z := lit 0 |};      (* L Back (Leg 4) *)
    {| x := side; y := front; z := lit 0 |} ].      (* R Back (Leg 5) *)

Definition getFixedFootPoints (dims : HexapodDimensions A) : list (Point3D A) :=
  let bodyPoints := getLocalBodyPoints dims in
  let legReach := coxa dims + femur dims + tibia dims * lit 0.5 in
  map (fun hip =>
         let angle := natan2 (y hip) (x hip) in
         let reach := nsqrt (x hip * x hip + y hip * y hip) + legReach in
         {| x := ncos angle * reach;
            y := nsin angle * reach;
            z := lit 0 |})
      bodyPoints.

(** The forward transform.  The source writes it twice with the same body:
    inline for [worldBodyPoints] and as the closure [toWorld] of the leg
    callback. *)
Definition toWorld (pose : BodyPose A) (p : Point3D A) : Point3D A :=
  let radRx := toRad (rx pose) in
  let radRy := toRad (ry pose) in
  let radRz := toRad (rz pose) in
  let curr := p in
  let curr := rotateX curr radRx in
  let curr := rotateY curr radRy in
  let curr := rotateZ curr radRz in
  {| x := x curr + tx pose; y := y curr + ty pose; z := z curr + tz pose |}.

(** The inverse transform, the value of [fLocal] after its three rotations. *)
Definition fLocal (pose : BodyPose A) (footWorld : Point3D A) : Point3D A :=
  let radRx := toRad (rx pose) in
  let radRy := toRad (ry pose) in
  let radRz := toRad (rz pose) in
  let fLocal := {| x := x footWorld - tx pose;
                   y := y footWorld - ty pose;
                   z := z footWorld - tz pose |} in
  let fLocal := rotateZ fLocal (- radRz) in
  let fLocal := rotateY fLocal (- radRy) in
  let fLocal := rotateX fLocal (- radRx) in
  fLocal.

(** [arr[index]]; every index the solver uses is below the length, six. *)
Definition at_index (l : list (Point3D A)) (index : nat) : Point3D A :=
  nth index l {| x := lit 0; y := lit 0; z := lit 0 |}.

(** The callback of [worldBodyPoints.map((hipWorld, index) => ...)].  Two
    constants the source computes and never reads, [v] and the local
    [tibiaAngle = gammaTri - Math.PI], are left out; the object [p2_plane]
    is its two fields [p2_plane_h] and [p2_plane_v], and [p3_plane] likewise. *)
Definition legIK (dims : HexapodDimensions A) (pose : BodyPose A)
    (hipWorld : Point3D A) (index : nat) : LegConfiguration A :=
  let localBodyPoints := getLocalBodyPoints dims in
  let fixedFootPoints := getFixedFootPoints dims in
  let footWorld := at_index fixedFootPoints index in
  let localHip := at_index localBodyPoints index in
  let mountAngle := natan2 (y localHip) (x localHip) in
  let fLocal := fLocal pose footWorld in
  let hipLocal := at_index localBodyPoints index in
  let vLocal := {| x := x fLocal - x hipLocal;
                   y := y fLocal - y hipLocal;
                   z := z fLocal - z hipLocal |} in
  let vLeg := rotateZ vLocal (- mountAngle) in
  let coxaAngle := natan2 (y vLeg) (x vLeg) in
  let planarDist := nsqrt (x vLeg * x vLeg + y vLeg * y vLeg) in
  let reach := planarDist - coxa dims in
  let height := z vLeg in
  let c := nsqrt (reach * reach + height * height) in
  let alphaTri := natan2 height reach in
  let cosBeta :=
    (femur dims * femur dims + c * c - tibia dims * tibia dims)
    / (lit 2 * femur dims * c) in
  let clampedCosBeta := nmax (lit (-1)) (nmin (lit 1) cosBeta) in
  let betaTri := nacos clampedCosBeta in
  let femurAngle := alphaTri + betaTri in
  let cosGamma :=
    (femur dims * femur dims + tibia dims * tibia dims - c * c)
    / (lit 2 * femur dims * tibia dims) in
  let clampedCosGamma := nmax (lit (-1)) (nmin (lit 1) cosGamma) in
  let gammaTri := nacos clampedCosGamma in
  let p1_leg := {| x := coxa dims * ncos coxaAngle;
                   y := coxa dims * nsin coxaAngle;
                   z := lit 0 |} in
  let fem_h := femur dims * ncos femurAngle in
  let fem_v := femur dims * nsin femurAngle in
  let p2_plane_h := coxa dims + fem_h in
  let p2_plane_v := fem_v in
  let p3_plane_h := coxa dims + reach in
  let p3_plane_v := height in
  let p2_leg := {| x := p2_plane_h * ncos coxaAngle;
                   y := p2_plane_h * nsin coxaAngle;
                   z := p2_plane_v |} in
  let p3_leg := {| x := p3_plane_h * ncos coxaAngle;
                   y := p3_plane_h * nsin coxaAngle;
                   z := p3_plane_v |} in
  let p1_body := rotateZ p1_leg mountAngle in
  let p2_body := rotateZ p2_leg mountAngle in
  let p3_body := rotateZ p3_leg mountAngle in
  let j1_local := {| x := x p1_body + x hipLocal;
                     y := y p1_body + y hipLocal;
                     z := z p1_body + z hipLocal |} in
  let j2_local := {| x := x p2_body + x hipLocal;
                     y := y p2_body + y hipLocal;
                     z := z p2_body + z hipLocal |} in
  let j3_local := {| x := x p3_body + x hipLocal;
                     y := y p3_body + y hipLocal;
                     z := z p3_body + z hipLocal |} in
  {| legId := index;
     coxaAngle := toDeg coxaAngle;
     femurAngle := toDeg femurAngle;
     tibiaAngle := toDeg gammaTri;
     joints := {| bodyContact := hipWorld;
                  coxaJoint := toWorld pose j1_local;
                  femurJoint := toWorld pose j2_local;
                  foot := toWorld pose j3_local |} |}.

Definition solveHexapodIK (dims : HexapodDimensions A) (pose : BodyPose A)
    : HexapodConfiguration A :=
  let localBodyPoints := getLocalBodyPoints dims in
  let worldBodyPoints := map (toWorld pose) localBodyPoints in
  let legs := mapi (legIK dims pose) worldBodyPoints in
  {| legs := legs; bodyCorners := worldBodyPoints |}.

(** *** The local constants of the leg callback

    Each [const] of the callback that a property speaks of, as a function of
    the callback's inputs; [legIK_eq] below states that the callback returns
    what these compute. *)

Definition clamp (v : A) : A := nmax (lit (-1)) (nmin (lit 1) v).

(** The nominal reach [legReach] of [getFixedFootPoints]. *)
Definition legReach (dims : HexapodDimensions A) : A :=
  coxa dims + femur dims + tibia dims * lit 0.5.

Definition leg_hipLocal (dims : HexapodDimensions A) (index : nat) : Point3D A :=
  at_index (getLocalBodyPoints dims) index.

Definition leg_footWorld (dims : HexapodDimensions A) (index : nat) : Point3D A :=
  at_index (getFixedFootPoints dims) index.

Definition leg_mountAngle (dims : HexapodDimensions A) (index : nat) : A :=
  natan2 (y (leg_hipLocal dims index)) (x (leg_hipLocal dims index)).

Definition leg_vLocal (dims : HexapodDimensions A) (pose : BodyPose A)
    (index : nat) : Point3D A :=
  let fLocal := fLocal pose (leg_footWorld dims index) in
  let hipLocal := leg_hipLocal dims index in
  {| x := x fLocal - x hipLocal;
     y := y fLocal - y hipLocal;
     z := z fLocal - z hipLocal |}.

Definition leg_vLeg (dims : HexapodDimensions A) (pose : BodyPose A)
    (index : nat) : Point3D A :=
  rotateZ (leg_vLocal dims pose index) (- leg_mountAngle dims index).

Definition leg_coxaAngle (dims : HexapodDimensions A) (pose : BodyPose A)
    (index : nat) : A :=
  natan2 (y (leg_vLeg dims pose index)) (x (leg_vLeg dims pose index)).

Definition leg_planarDist (dims : HexapodDimensions A) (pose : BodyPose A)
    (index : nat) : A :=
  let vLeg := leg_vLeg dims pose index in
  nsqrt (x vLeg * x vLeg + y vLeg * y vLeg).

Definition leg_reach (dims : HexapodDimensions A) (pose : BodyPose A)
    (index : nat) : A :=
  leg_planarDist dims pose index - coxa dims.

Definition leg_height (dims : HexapodDimensions A) (pose : BodyPose A)
    (index : nat) : A :=
  z (leg_vLeg dims pose index).

Definition leg_c (dims : HexapodDimensions A) (pose : BodyPose A)
    (index : nat) : A :=
  let reach := leg_reach dims pose index in
  let height := leg_height dims pose index in
  nsqrt (reach * reach + height * height).

Definition leg_cosBeta (dims : HexapodDimensions A) (pose : BodyPose A)
    (index : nat) : A :=
  let c := leg_c dims pose index in
  (femur dims * femur dims + c * c - tibia dims * tibia dims)
  / (lit 2 * femur dims * c).

Definition leg_cosGamma (dims : HexapodDimensions A) (pose : BodyPose A)
    (index : nat) : A :=
  let c := leg_c dims pose index in
  (femur dims * femur dims + tibia dims * tibia dims - c * c)
  / (lit 2 * femur dims * tibia dims).

(** [femurAngle] and [gammaTri], in radians. *)
Definition leg_femurAngle (dims : HexapodDimensions A) (pose : BodyPose A)
    (index : nat) : A :=
  let alphaTri := natan2 (leg_height dims pose index) (leg_reach dims pose index) in
  let betaTri := nacos (clamp (leg_cosBeta dims pose index)) in
  alphaTri + betaTri.

Definition leg_gammaTri (dims : HexapodDimensions A) (pose : BodyPose A)
    (index : nat) : A :=
  nacos (clamp (leg_cosGamma dims pose index)).

(** [p1_leg], [p2_leg] and [p3_leg]. *)
Definition leg_p1 (dims : HexapodDimensions A) (pose : BodyPose A)
    (index : nat) : Point3D A :=
  let coxaAngle := leg_coxaAngle dims pose index in
  {| x := coxa dims * ncos coxaAngle;
     y := coxa dims * nsin coxaAngle;
     z := lit 0 |}.

Definition leg_p2 (dims : HexapodDimensions A) (pose : BodyPose A)
    (index : nat) : Point3D A :=
  let coxaAngle := leg_coxaAngle dims pose index in
  let femurAngle := leg_femurAngle dims pose index in
  let fem_h := femur dims * ncos femurAngle in
  let fem_v := femur dims * nsin femurAngle in
  {| x := (coxa dims + fem_h) * ncos coxaAngle;
     y := (coxa dims + fem_h) * nsin coxaAngle;
     z := fem_v |}.

Definition leg_p3 (dims : HexapodDimensions A) (pose : BodyPose A)
    (index : nat) : Point3D A :=
  let coxaAngle := leg_coxaAngle dims pose index in
  {| x := (coxa dims + leg_reach dims pose index) * ncos coxaAngle;
     y := (coxa dims + leg_reach dims pose index) * nsin coxaAngle;
     z := leg_height dims pose index |}.

(** [toWorld(jN_local)]: a point of the leg's frame turned by the mount
    angle, moved to the hip and sent to the world frame. *)
Definition leg_toWorld (dims : HexapodDimensions A) (pose : BodyPose A)
    (index : nat) (p_leg : Point3D A) : Point3D A :=
  let p_body := rotateZ p_leg (leg_mountAngle dims index) in
  let hipLocal := leg_hipLocal dims index in
  toWorld pose {| x := x p_body + x hipLocal;
                  y := y p_body + y hipLocal;
                  z := z p_body + z hipLocal |}.

(** The leg the solver returns at position [index]. *)
Definition leg_of (dims : HexapodDimensions A) (pose : BodyPose A)
    (index : nat) : LegConfiguration A :=
  legIK dims pose (toWorld pose (leg_hipLocal dims index)) index.

End Solver.

(** ** Exact real arithmetic *)

Local Open Scope R_scope.

(** [Math.atan2(b, a)], the polar angle of the point [(a, b)], in
    [(-PI, PI]]; [atan2 0 0 = 0]. *)
Definition atan2 (b a : R) : R :=
  if Rlt_dec 0 a then atan (b / a)
  else if Rlt_dec a 0 then
    (if Rle_dec 0 b then atan (b / a) + PI else atan (b / a) - PI)
  else if Rlt_dec 0 b then PI / 2
  else if Rlt_dec b 0 then - (PI / 2)
  else 0.

#[export] Instance R_number : Number R := {|
  lit := fun r => r;
  nadd := Rplus;
  nsub := Rminus;
  nmul := Rmult;
  ndiv := Rdiv;
  nneg := Ropp;
  nsqrt := sqrt;
  nsin := sin;
  ncos := cos;
  natan2 := atan2;
  nacos := acos;
  nmax := Rmax;
  nmin := Rmin
|}.

(** Euclidean distance between two points. *)
Definition dist3 (p q : Point3D R) : R :=
  sqrt ((x p - x q) * (x p - x q) + (y p - y q) * (y p - y q)
        + (z p - z q) * (z p - z q)).

(** Distance of a point from the body center, along the ground plane. *)
Definition radius (p : Point3D R) : R := sqrt (x p * x p + y p * y p).

Definition origin : Point3D R := {| x := 0; y := 0; z := 0 |}.

(** Translation by a vector and by its opposite. *)
Definition translate (p v : Point3D R) : Point3D R :=
  {| x := x p + x v; y := y p + y v; z := z p + z v |}.

Definition untranslate (p v : Point3D R) : Point3D R :=
  {| x := x p - x v; y := y p - y v; z := z p - z v |}.

Definition translation (pose : BodyPose R) : Point3D R :=
  {| x := tx pose; y := ty pose; z := tz pose |}.

(** The dimensions the specification allows: six positive scalars. *)
Definition positive_dims (d : HexapodDimensions R) : Prop :=
  0 < front d /\ 0 < side d /\ 0 < middle d /\
  0 < coxa d /\ 0 < femur d /\ 0 < tibia d.

Definition identity_pose : BodyPose R :=
  {| tx := 0; ty := 0; tz := 0; rx := 0; ry := 0; rz := 0 |}.

(** A pose that only moves the body, without turning it. *)
Definition translation_pose (a b c : R) : BodyPose R :=
  {| tx := a; ty := b; tz := c; rx := 0; ry := 0; rz := 0 |}.

(** The identity pose but for the height [tz]. *)
Definition height_pose (t : R) : BodyPose R := translation_pose 0 0 t.

(** The constants of [App.tsx]. *)
Definition DEFAULT_DIMENSIONS : HexapodDimensions R :=
  {| front := 100; side := 100; middle := 100;
     coxa := 50; femur := 100; tibia := 120 |}.

Definition DEFAULT_POSE : BodyPose R :=
  {| tx := 0; ty := 0; tz := 80; rx := 0; ry := 0; rz := 0 |}.

(** Where a hip sits on the body, in the frame of [getLocalBodyPoints]:
    right is [x > 0], front is [y < 0]. *)
Definition is_right (p : Point3D R) : Prop := 0 < x p.
Definition is_left (p : Point3D R) : Prop := x p < 0.
Definition is_front (p : Point3D R) : Prop := y p < 0.
Definition is_back (p : Point3D R) : Prop := 0 < y p.
Definition is_middle (p : Point3D R) : Prop := y p = 0.

(** The opposite point. *)
Definition opposite (p : Point3D R) : Point3D R :=
  {| x := - x p; y := - y p; z := - z p |}.

(** The law-of-cosines quotient [cosBeta] as a function of the hypotenuse. *)
Definition cosBeta_of (d : HexapodDimensions R) (c : R) : R :=
  (femur d * femur d + c * c - tibia d * tibia d) / (2 * femur d * c).

(** [reach] when the body is only raised: femur plus half the tibia. *)
Definition rest_reach (d : HexapodDimensions R) : R := femur d + tibia d * 0.5.

(** The fixed foot points lie within [tol] of one circle about the body
    center. *)
Definition feet_on_one_circle (d : HexapodDimensions R) (tol : R) : Prop :=
  forall i j : nat, (i < 6)%nat -> (j < 6)%nat ->
    Rabs (dist3 (at_index (getFixedFootPoints d) i) origin
          - dist3 (at_index (getFixedFootPoints d) j) origin) <= tol.

(** A leg with femur and tibia of one length, and the body moved along x by
    femur plus half the tibia: the foot of leg 0 then sits at the end of its
    coxa.  Every value is in the range of the sliders of [Controls.tsx]. *)
Definition FOLDED_DIMENSIONS : HexapodDimensions R :=
  {| front := 100; side := 100; middle := 100;
     coxa := 50; femur := 60; tibia := 60 |}.

Definition FOLDED_POSE : BodyPose R :=
  {| tx := 90; ty := 0; tz := 0; rx := 0; ry := 0; rz := 0 |}.

(** The scalar product of the vectors from [q] to [a] and from [q] to [b]. *)
Definition dot_at (q a b : Point3D R) : R :=
  (x a - x q) * (x b - x q) + (y a - y q) * (y b - y q)
  + (z a - z q) * (z b - z q).

(** The foot can be reached: the hypotenuse is not zero and satisfies the
    triangle inequalities with femur and tibia. *)
Definition reachable (d : HexapodDimensions R) (c : R) : Prop :=
  c <> 0 /\ Rabs (femur d - tibia d) <= c <= femur d + tibia d.

(** The pose that moves the body, without turning it, along the direction of
    leg [i] by femur plus half the tibia: the foot of that leg is then at
    the end of its coxa. *)
Definition fold_pose (d : HexapodDimensions R) (i : nat) : BodyPose R :=
  translation_pose (cos (leg_mountAngle d i) * rest_reach d)
                   (sin (leg_mountAngle d i) * rest_reach d) 0.

(** ** JavaScript numbers: the reals with the two infinities and [NaN] *)

Inductive jsnum : Type :=
  | Fin (r : R)
  | PInf
  | NInf
  | NaN.

(** The infinity with the sign of [r]; [NaN] at zero ([0 * Infinity],
    [0 / 0]). *)
Definition inf_of_sign (r : R) : jsnum :=
  if Rlt_dec 0 r then PInf else if Rlt_dec r 0 then NInf else NaN.

Definition jneg (a : jsnum) : jsnum :=
  match a with
  | Fin r => Fin (- r)
  | PInf => NInf
  | NInf => PInf
  | NaN => NaN
  end.

Definition jadd (a b : jsnum) : jsnum :=
  match a, b with
  | NaN, _ | _, NaN => NaN
  | Fin r, Fin s => Fin (r + s)
  | PInf, NInf | NInf, PInf => NaN
  | PInf, _ | _, PInf => PInf
  | NInf, _ | _, NInf => NInf
  end.

Definition jsub (a b : jsnum) : jsnum := jadd a (jneg b).

Definition jmul (a b : jsnum) : jsnum :=
  match a, b with
  | NaN, _ | _, NaN => NaN
  | Fin r, Fin s => Fin (r * s)
  | Fin r, PInf | PInf, Fin r => inf_of_sign r
  | Fin r, NInf | NInf, Fin r => inf_of_sign (- r)
  | PInf, PInf | NInf, NInf => PInf
  | PInf, NInf | NInf, PInf => NInf
  end.

Definition jdiv (a b : jsnum) : jsnum :=
  match a, b with
  | NaN, _ | _, NaN => NaN
  | Fin r, Fin s => if Req_dec_T s 0 then inf_of_sign r else Fin (r / s)
  | Fin _, PInf | Fin _, NInf => Fin 0
  | PInf, Fin s => if Rlt_dec s 0 then NInf else PInf
  | NInf, Fin s => if Rlt_dec s 0 then PInf else NInf
  | PInf, PInf | PInf, NInf | NInf, PInf | NInf, NInf => NaN
  end.

Definition jsqrt (a : jsnum) : jsnum :=
  match a with
  | Fin r => if Rlt_dec r 0 then NaN else Fin (sqrt r)
  | PInf => PInf
  | NInf | NaN => NaN
  end.

Definition jsin (a : jsnum) : jsnum :=
  match a with Fin r => Fin (sin r) | _ => NaN end.

Definition jcos (a : jsnum) : jsnum :=
  match a with Fin r => Fin (cos r) | _ => NaN end.

Definition jacos (a : jsnum) : jsnum :=
  match a with
  | Fin r =>
      if Rle_dec (-1) r then (if Rle_dec r 1 then Fin (acos r) else NaN)
      else NaN
  | _ => NaN
  end.

Definition jatan2 (b a : jsnum) : jsnum :=
  match b, a with
  | NaN, _ | _, NaN => NaN
  | Fin s, Fin r => Fin (atan2 s r)
  | Fin _, PInf => Fin 0
  | Fin s, NInf => if Rlt_dec s 0 then Fin (- PI) else Fin PI
  | PInf, Fin _ => Fin (PI / 2)
  | NInf, Fin _ => Fin (- (PI / 2))
  | PInf, PInf => Fin (PI / 4)
  | PInf, NInf => Fin (3 * PI / 4)
  | NInf, PInf => Fin (- (PI / 4))
  | NInf, NInf => Fin (- (3 * PI / 4))
  end.

(** [Math.max] and [Math.min] return [NaN] when an argument is [NaN]. *)
Definition jmax (a b : jsnum) : jsnum :=
  match a, b with
  | NaN, _ | _, NaN => NaN
  | PInf, _ | _, PInf => PInf
  | NInf, c | c, NInf => c
  | Fin r, Fin s => Fin (Rmax r s)
  end.

Definition jmin (a b : jsnum) : jsnum :=
  match a, b with
  | NaN, _ | _, NaN => NaN
  | NInf, _ | _, NInf => NInf
  | PInf, c | c, PInf => c
  | Fin r, Fin s => Fin (Rmin r s)
  end.

#[export] Instance js_number : Number jsnum := {|
  lit := Fin;
  nadd := jadd;
  nsub := jsub;
  nmul := jmul;
  ndiv := jdiv;
  nneg := jneg;
  nsqrt := jsqrt;
  nsin := jsin;
  ncos := jcos;
  natan2 := jatan2;
  nacos := jacos;
  nmax := jmax;
  nmin := jmin
|}.

(** A JavaScript number that is an ordinary number. *)
Definition finite (a : jsnum) : Prop := exists r, a = Fin r.

(** Real inputs and results read as JavaScript values. *)
Definition fin_dims (d : HexapodDimensions R) : HexapodDimensions jsnum :=
  {| front := Fin (front d); side := Fin (side d); middle := Fin (middle d);
     coxa := Fin (coxa d); femur := Fin (femur d); tibia := Fin (tibia d) |}.

Definition fin_pose (p : BodyPose R) : BodyPose jsnum :=
  {| tx := Fin (tx p); ty := Fin (ty p); tz := Fin (tz p);
     rx := Fin (rx p); ry := Fin (ry p); rz := Fin (rz p) |}.

Definition fin_point (p : Point3D R) : Point3D jsnum :=
  {| x := Fin (x p); y := Fin (y p); z := Fin (z p) |}.

Definition fin_leg (l : LegConfiguration R) : LegConfiguration jsnum :=
  {| legId := legId l;
     coxaAngle := Fin (coxaAngle l);
     femurAngle := Fin (femurAngle l);
     tibiaAngle := Fin (tibiaAngle l);
     joints := {| bodyContact := fin_point (bodyContact (joints l));
                  coxaJoint := fin_point (coxaJoint (joints l));
                  femurJoint := fin_point (femurJoint (joints l));
                  foot := fin_point (foot (joints l)) |} |}.

Definition nan_point : Point3D jsnum := {| x := NaN; y := NaN; z := NaN |}.
(** ** IEEE-754 doubles: the numbers the program runs on

    The arithmetic of JavaScript is that of binary64, round to nearest, ties
    to even: [+], [-], [*], [/] and [Math.sqrt] are the operations of
    [PrimFloat].  ECMA-262 leaves [Math.sin], [Math.cos], [Math.atan2] and
    [Math.acos] to the implementation and fixes their value at a few
    arguments only, so they are a parameter, [MathLibrary], of which only
    those fixed values are assumed ([conforming]). *)

From Stdlib Require PrimFloat.

Module Double.

Import PrimFloat.
Local Open Scope float_scope.

Record MathLibrary : Type := {
  Math_sin : float -> float;
  Math_cos : float -> float;
  Math_atan2 : float -> float -> float;
  Math_acos : float -> float
}.

(** The values ECMA-262 (21.3.2) fixes at a zero argument: [Math.cos] of
    [+0] or [-0] is [1], [Math.sin] of a zero is that zero, and
    [Math.atan2(y, x)] for [y] a zero and [x > 0] is [y]. *)
Record conforming (m : MathLibrary) : Prop := {
  cos_zero : forall t, is_zero t = true -> Math_cos m t = 1;
  sin_zero : forall t, is_zero t = true -> Math_sin m t = t;
  atan2_zero : forall y x,
    is_zero y = true -> (0 <? x) = true -> Math_atan2 m y x = y
}.

(** [Math.max] and [Math.min]: [NaN] if an argument is [NaN], and [-0] is
    below [+0]. *)
Definition Math_max (a b : float) : float :=
  if (is_nan a || is_nan b)%bool then nan
  else if a <? b then b
  else if b <? a then a
  else if get_sign a then b else a.

Definition Math_min (a b : float) : float :=
  if (is_nan a || is_nan b)%bool then nan
  else if a <? b then a
  else if b <? a then b
  else if get_sign a then a else b.

(** The numeric literals of [hexapodLogic.ts] and [Math.PI], each the double
    JavaScript reads it as: all are exact but [Math.PI], the double nearest
    to pi.  The solver writes no other literal; a real that is none of them
    is read as [NaN]. *)
Definition double_of_literal (r : R) : float :=
  if Req_dec_T r 0 then 0
  else if Req_dec_T r 0.5 then 0.5
  else if Req_dec_T r 1 then 1
  else if Req_dec_T r (-1) then -1
  else if Req_dec_T r 2 then 2
  else if Req_dec_T r 180 then 180
  else if Req_dec_T r PI then 0x1.921fb54442d18p+1
  else nan.

Definition double_number (m : MathLibrary) : Number float := {|
  lit := double_of_literal;
  nadd := PrimFloat.add;
  nsub := PrimFloat.sub;
  nmul := PrimFloat.mul;
  ndiv := PrimFloat.div;
  nneg := PrimFloat.opp;
  nsqrt := PrimFloat.sqrt;
  nsin := Math_sin m;
  ncos := Math_cos m;
  natan2 := Math_atan2 m;
  nacos := Math_acos m;
  nmax := Math_max;
  nmin := Math_min
|}.

Definition positive_dims (d : HexapodDimensions float) : Prop :=
  (0 <? front d) = true /\ (0 <? side d) = true /\ (0 <? middle d) = true /\
  (0 <? coxa d) = true /\ (0 <? femur d) = true /\ (0 <? tibia d) = true.

Definition identity_pose : BodyPose float :=
  {| tx := 0; ty := 0; tz := 0; rx := 0; ry := 0; rz := 0 |}.

(** Dimensions with a femur of [1e16], where neighbouring doubles are 2
    apart. *)
Definition LONG_FEMUR_DIMENSIONS : HexapodDimensions float :=
  {| front := 100; side := 100; middle := 100;
     coxa := 1; femur := 1e16; tibia := 3 |}.

End Double.


(** ** The components that read the solver's result *)

From Stdlib Require String DecimalString.

(** *** [components/DataPanel.tsx] *)

Module DataPanel.

Section Bars.

Context {A : Type} {num : Number A}.
Local Open Scope num_scope.




End Bars.

Section Names.

Import String.
Local Open Scope string_scope.

Definition LEG_NAMES : list string :=
  ["Right Middle"; "Right Front"; "Left Front";
   "Left Middle"; "Left Back"; "Right Back"].

(** [`Leg ${leg.legId}`]. *)
Definition numberedName (legId : nat) : string :=
  "Leg " ++ DecimalString.NilEmpty.string_of_uint (Nat.to_uint legId).

(** [LEG_NAMES[leg.legId] || `Leg ${leg.legId}`]: the name at the index, or
    the numbered name when there is none (or an empty one). *)
Definition legName (legId : nat) : string :=
  match nth_error LEG_NAMES legId with
  | Some name => if String.eqb name "" then numberedName legId else name
  | None => numberedName legId
  end.

(** The two words of a name. *)
Definition RIGHT : string := "Right".
Definition LEFT : string := "Left".
Definition FRONT : string := "Front".
Definition MIDDLE : string := "Middle".
Definition BACK : string := "Back".

Definition two_words (side_word row_word : string) : string :=
  side_word ++ " " ++ row_word.

End Names.

End DataPanel.

(** *** [components/Hexapod3D.tsx] *)

Module Hexapod3D.

Section Scene.

Context {A : Type} {num : Number A}.
Local Open Scope num_scope.

(** A [THREE.Vector3], or the array [toVec3] returns. *)
Definition Vec3 : Type := (A * A * A)%type.

Definition toVec3 (p : Point3D A) : Vec3 := (x p, z p, - y p).

(** [THREE.Vector3.distanceTo], the Euclidean distance, and
    [new THREE.Vector3().addVectors(s, e).multiplyScalar(0.5)]. *)
Definition distanceTo (s e : Vec3) : A :=
  let '(sx, sy, sz) := s in
  let '(ex, ey, ez) := e in
  nsqrt ((sx - ex) * (sx - ex) + (sy - ey) * (sy - ey) + (sz - ez) * (sz - ez)).

Definition midpoint (s e : Vec3) : Vec3 :=
  let '(sx, sy, sz) := s in
  let '(ex, ey, ez) := e in
  ((sx + ex) * lit 0.5, (sy + ey) * lit 0.5, (sz + ez) * lit 0.5).

(** [dist] and [mid] of [Strut]: the length of the box and its place. *)
Definition Strut_dist (start end_ : Point3D A) : A :=
  distanceTo (toVec3 start) (toVec3 end_).

Definition Strut_mid (start end_ : Point3D A) : Vec3 :=
  midpoint (toVec3 start) (toVec3 end_).

(** [centroid] of [Chassis]. *)
Definition centroid (corners : list (Point3D A)) : Point3D A :=
  let c := fold_left
             (fun c p => {| x := x c + x p; y := y c + y p; z := z c + z p |})
             corners {| x := lit 0; y := lit 0; z := lit 0 |} in
  let n := lit (INR (length corners)) in
  {| x := x c / n; y := y c / n; z := z c / n |}.

(** The struts of [Chassis], as pairs of a start and an end: for each corner
    one along the perimeter, to [corners[(i + 1) % corners.length]], and one
    spoke from the centroid. *)
Definition perimeter (corners : list (Point3D A))
    : list (Point3D A * Point3D A) :=
  mapi (fun p i => (p, at_index corners ((i + 1) mod length corners))) corners.

Definition spokes (corners : list (Point3D A))
    : list (Point3D A * Point3D A) :=
  map (fun p => (centroid corners, p)) corners.

(** The segments [LegAssembly] draws: the coxa strut, the femur strut (drawn
    twice) and the shin. *)
Definition LegAssembly (leg : LegConfiguration A)
    : list (Point3D A * Point3D A) :=
  [ (bodyContact (joints leg), coxaJoint (joints leg));
    (coxaJoint (joints leg), femurJoint (joints leg));
    (coxaJoint (joints leg), femurJoint (joints leg));
    (femurJoint (joints leg), foot (joints leg)) ].

End Scene.

End Hexapod3D.

(** *** [components/Controls.tsx]: the ranges of the sliders *)

Module Controls.

(** [keyof HexapodDimensions] and [keyof BodyPose]. *)
Inductive DimensionKey : Type :=
  | k_front | k_side | k_middle | k_coxa | k_femur | k_tibia.

Inductive PoseKey : Type :=
  | k_tx | k_ty | k_tz | k_rx | k_ry | k_rz.

(** [min] and [max] of each [Slider]. *)
Definition dimension_range (key : DimensionKey) : R * R :=
  match key with
  | k_front | k_side | k_middle => (50, 150)
  | k_coxa => (20, 100)
  | k_femur | k_tibia => (20, 150)
  end.

Definition pose_range (key : PoseKey) : R * R :=
  match key with
  | k_tx | k_ty => (-100, 100)
  | k_tz => (-50, 150)
  | k_rx | k_ry => (-30, 30)
  | k_rz => (-45, 45)
  end.

Definition within (range : R * R) (value : R) : Prop :=
  fst range <= value <= snd range.

End Controls.

(** *** [App.tsx] *)

Module App.

Import Controls.

Record State : Type := {
  dimensions : HexapodDimensions R;
  pose : BodyPose R;
  isDataPanelOpen : bool
}.

(** [useState(DEFAULT_DIMENSIONS)], [useState(DEFAULT_POSE)],
    [useState(true)]. *)
Definition initial : State :=
  {| dimensions := DEFAULT_DIMENSIONS;
     pose := DEFAULT_POSE;
     isDataPanelOpen := true |}.

(** [{ ...prev, [key]: value }]. *)
Definition setDimension (prev : HexapodDimensions R) (key : DimensionKey)
    (value : R) : HexapodDimensions R :=
  match key with
  | k_front => {| front := value; side := side prev; middle := middle prev;
                  coxa := coxa prev; femur := femur prev; tibia := tibia prev |}
  | k_side => {| front := front prev; side := value; middle := middle prev;
                 coxa := coxa prev; femur := femur prev; tibia := tibia prev |}
  | k_middle => {| front := front prev; side := side prev; middle := value;
                   coxa := coxa prev; femur := femur prev; tibia := tibia prev |}
  | k_coxa => {| front := front prev; side := side prev; middle := middle prev;
                 coxa := value; femur := femur prev; tibia := tibia prev |}
  | k_femur => {| front := front prev; side := side prev; middle := middle prev;
                  coxa := coxa prev; femur := value; tibia := tibia prev |}
  | k_tibia => {| front := front prev; side := side prev; middle := middle prev;
                  coxa := coxa prev; femur := femur prev; tibia := value |}
  end.

Definition setPose (prev : BodyPose R) (key : PoseKey) (value : R)
    : BodyPose R :=
  match key with
  | k_tx => {| tx := value; ty := ty prev; tz := tz prev;
               rx := rx prev; ry := ry prev; rz := rz prev |}
  | k_ty => {| tx := tx prev; ty := value; tz := tz prev;
               rx := rx prev; ry := ry prev; rz := rz prev |}
  | k_tz => {| tx := tx prev; ty := ty prev; tz := value;
               rx := rx prev; ry := ry prev; rz := rz prev |}
  | k_rx => {| tx := tx prev; ty := ty prev; tz := tz prev;
               rx := value; ry := ry prev; rz := rz prev |}
  | k_ry => {| tx := tx prev; ty := ty prev; tz := tz prev;
               rx := rx prev; ry := value; rz := rz prev |}
  | k_rz => {| tx := tx prev; ty := ty prev; tz := tz prev;
               rx := rx prev; ry := ry prev; rz := value |}
  end.

Definition getDimension (d : HexapodDimensions R) (key : DimensionKey) : R :=
  match key with
  | k_front => front d | k_side => side d | k_middle => middle d
  | k_coxa => coxa d | k_femur => femur d | k_tibia => tibia d
  end.

Definition getPose (p : BodyPose R) (key : PoseKey) : R :=
  match key with
  | k_tx => tx p | k_ty => ty p | k_tz => tz p
  | k_rx => rx p | k_ry => ry p | k_rz => rz p
  end.

(** What the user can do: move a slider, press RESET, fold the panel. *)
Inductive Event : Type :=
  | DimensionChange (key : DimensionKey) (value : R)
  | PoseChange (key : PoseKey) (value : R)
  | ResetClick
  | TogglePanel.

(** [handleDimensionChange], [handlePoseChange], [reset] and the [onClick]
    of the panel's header. *)
Definition handle (st : State) (ev : Event) : State :=
  match ev with
  | DimensionChange key value =>
      {| dimensions := setDimension (dimensions st) key value;
         pose := pose st;
         isDataPanelOpen := isDataPanelOpen st |}
  | PoseChange key value =>
      {| dimensions := dimensions st;
         pose := setPose (pose st) key value;
         isDataPanelOpen := isDataPanelOpen st |}
  | ResetClick =>
      {| dimensions := DEFAULT_DIMENSIONS;
         pose := DEFAULT_POSE;
         isDataPanelOpen := isDataPanelOpen st |}
  | TogglePanel =>
      {| dimensions := dimensions st;
         pose := pose st;
         isDataPanelOpen := negb (isDataPanelOpen st) |}
  end.

Definition run (st : State) (events : list Event) : State :=
  fold_left handle events st.

(** [hexapodConfig]: the result shown, a function of the state. *)
Definition hexapodConfig (st : State) : HexapodConfiguration R :=
  solveHexapodIK (dimensions st) (pose st).

(** A slider only gives values between its [min] and its [max]. *)
Definition from_slider (ev : Event) : Prop :=
  match ev with
  | DimensionChange key value => within (dimension_range key) value
  | PoseChange key value => within (pose_range key) value
  | ResetClick | TogglePanel => True
  end.

Definition DimensionKey_eqb (a b : DimensionKey) : bool :=
  match a, b with
  | k_front, k_front | k_side, k_side | k_middle, k_middle
  | k_coxa, k_coxa | k_femur, k_femur | k_tibia, k_tibia => true
  | _, _ => false
  end.

Definition PoseKey_eqb (a b : PoseKey) : bool :=
  match a, b with
  | k_tx, k_tx | k_ty, k_ty | k_tz, k_tz
  | k_rx, k_rx | k_ry, k_ry | k_rz, k_rz => true
  | _, _ => false
  end.

(** The value a dimension has after a list of events, read off the events
    for that key alone: the value of its last change since the last reset,
    the default after a reset, the value at the start otherwise. *)
Fixpoint last_dimension (key : DimensionKey) (events : list Event)
    (current : R) : R :=
  match events with
  | [] => current
  | DimensionChange key' value :: rest =>
      last_dimension key rest
        (if DimensionKey_eqb key' key then value else current)
  | ResetClick :: rest =>
      last_dimension key rest (getDimension DEFAULT_DIMENSIONS key)
  | _ :: rest => last_dimension key rest current
  end.

Fixpoint last_pose (key : PoseKey) (events : list Event) (current : R) : R :=
  match events with
  | [] => current
  | PoseChange key' value :: rest =>
      last_pose key rest (if PoseKey_eqb key' key then value else current)
  | ResetClick :: rest => last_pose key rest (getPose DEFAULT_POSE key)
  | _ :: rest => last_pose key rest current
  end.

(** How many times the header of the panel was clicked. *)
Fixpoint toggles (events : list Event) : nat :=
  match events with
  | [] => 0
  | TogglePanel :: rest => S (toggles rest)
  | _ :: rest => toggles rest
  end.

(** The state keeps every value in the range of its slider. *)
Definition in_ranges (st : State) : Prop :=
  (forall key : DimensionKey,
      within (dimension_range key) (getDimension (dimensions st) key)) /\
  (forall key : PoseKey,
      within (pose_range key) (getPose (pose st) key)).

End App.

(** ** Lemmas *)

Section SolverFacts.

Context {A : Type} {num : Number A}.

Lemma legIK_eq (dims : HexapodDimensions A) (pose : BodyPose A)
    (hipWorld : Point3D A) (index : nat) :
  legIK dims pose hipWorld index =
  {| legId := index;
     coxaAngle := toDeg (leg_coxaAngle dims pose index);
     femurAngle := toDeg (leg_femurAngle dims pose index);
     tibiaAngle := toDeg (leg_gammaTri dims pose index);
     joints := {| bodyContact := hipWorld;
                  coxaJoint := leg_toWorld dims pose index (leg_p1 dims pose index);
                  femurJoint := leg_toWorld dims pose index (leg_p2 dims pose index);
                  foot := leg_toWorld dims pose index (leg_p3 dims pose index) |} |}.
Proof. reflexivity. Qed.

(** The solver returns six legs, numbered in order, and six body corners. *)
Lemma solve_legs (dims : HexapodDimensions A) (pose : BodyPose A) :
  legs (solveHexapodIK dims pose) =
  map (fun index =>
         legIK dims pose (toWorld pose (leg_hipLocal dims index)) index)
      [0; 1; 2; 3; 4; 5]%nat.
Proof. reflexivity. Qed.

Lemma solve_bodyCorners (dims : HexapodDimensions A) (pose : BodyPose A) :
  bodyCorners (solveHexapodIK dims pose) =
  map (fun index => toWorld pose (leg_hipLocal dims index))
      [0; 1; 2; 3; 4; 5]%nat.
Proof. reflexivity. Qed.


End SolverFacts.

(** Unfolds the operations of [Number] at [R]. *)
Ltac real_ops :=
  cbn [lit nadd nsub nmul ndiv nneg nsqrt nsin ncos natan2 nacos nmax nmin
       R_number] in *.

(** *** Facts on [atan2] *)

Lemma point3D_eq (p q : Point3D R) :
  x p = x q -> y p = y q -> z p = z q -> p = q.
Proof. destruct p, q; simpl; intros; subst; reflexivity. Qed.

Lemma sqrt_1_sqr_ratio (a b : R) :
  0 < a -> sqrt (1 + (b / a)²) = sqrt (a * a + b * b) / a.
Proof.
  intros Ha.
  replace (1 + (b / a)²) with ((a * a + b * b) * (/ a * / a))
    by (unfold Rsqr; field; lra).
  rewrite sqrt_mult_alt by nra.
  rewrite sqrt_square by (left; now apply Rinv_0_lt_compat).
  reflexivity.
Qed.

Lemma cos_atan_ratio (a b : R) :
  0 < a -> cos (atan (b / a)) = a / sqrt (a * a + b * b).
Proof.
  intros Ha. rewrite cos_atan, sqrt_1_sqr_ratio by assumption.
  assert (0 < sqrt (a * a + b * b)) by (apply sqrt_lt_R0; nra).
  field; lra.
Qed.

Lemma sin_atan_ratio (a b : R) :
  0 < a -> sin (atan (b / a)) = b / sqrt (a * a + b * b).
Proof.
  intros Ha. rewrite sin_atan, sqrt_1_sqr_ratio by assumption.
  assert (0 < sqrt (a * a + b * b)) by (apply sqrt_lt_R0; nra).
  field; lra.
Qed.

Lemma atan2_polar (a b : R) :
  cos (atan2 b a) * sqrt (a * a + b * b) = a /\
  sin (atan2 b a) * sqrt (a * a + b * b) = b.
Proof.
  unfold atan2.
  destruct (Rlt_dec 0 a) as [Ha | Ha].
  - assert (0 < sqrt (a * a + b * b)) by (apply sqrt_lt_R0; nra).
    rewrite cos_atan_ratio, sin_atan_ratio by assumption.
    split; field; lra.
  - destruct (Rlt_dec a 0) as [Ha' | Ha'].
    + assert (Hs : 0 < sqrt (a * a + b * b)) by (apply sqrt_lt_R0; nra).
      assert (Hc : cos (atan (b / a)) = - a / sqrt (a * a + b * b)).
      { replace (b / a) with (- b / - a) by (field; lra).
        rewrite cos_atan_ratio by lra.
        replace (- a * - a + - b * - b) with (a * a + b * b) by ring.
        reflexivity. }
      assert (Hn : sin (atan (b / a)) = - b / sqrt (a * a + b * b)).
      { replace (b / a) with (- b / - a) by (field; lra).
        rewrite sin_atan_ratio by lra.
        replace (- a * - a + - b * - b) with (a * a + b * b) by ring.
        reflexivity. }
      destruct (Rle_dec 0 b).
      * rewrite neg_cos, neg_sin, Hc, Hn. split; field; lra.
      * rewrite cos_minus, sin_minus, cos_PI, sin_PI, Hc, Hn.
        split; field; lra.
    + assert (a = 0) by lra. subst a.
      replace (0 * 0 + b * b) with (b * b) by ring.
      destruct (Rlt_dec 0 b).
      * rewrite cos_PI2, sin_PI2, sqrt_square by lra. lra.
      * destruct (Rlt_dec b 0).
        -- rewrite cos_neg, sin_neg, cos_PI2, sin_PI2.
           replace (b * b) with (- b * - b) by ring.
           rewrite sqrt_square by lra. lra.
        -- assert (b = 0) by lra. subst b.
           rewrite Rmult_0_l, sqrt_0. lra.
Qed.

Lemma atan2_pos_axis (a : R) : 0 < a -> atan2 0 a = 0.
Proof.
  intros Ha. unfold atan2. destruct (Rlt_dec 0 a); [|lra].
  replace (0 / a) with 0 by (field; lra). apply atan_0.
Qed.

Lemma atan2_right (a b : R) : 0 < a -> atan2 b a = atan (b / a).
Proof. intros Ha. unfold atan2. destruct (Rlt_dec 0 a); [reflexivity | lra]. Qed.

Lemma atan2_origin : atan2 0 0 = 0.
Proof.
  unfold atan2. repeat (destruct (Rlt_dec _ _); try lra).
Qed.

Lemma atan2_bound (a b : R) : - PI < atan2 b a <= PI.
Proof.
  unfold atan2. pose proof PI_RGT_0 as HPI.
  pose proof (atan_bound (b / a)) as Hb.
  destruct (Rlt_dec 0 a) as [Ha | Ha]; [lra|].
  destruct (Rlt_dec a 0) as [Ha' | Ha'].
  - destruct (Rle_dec 0 b) as [Hb0 | Hb0].
    + assert (b / a <= 0).
      { unfold Rdiv. assert (/ a < 0) by now apply Rinv_lt_0_compat. nra. }
      assert (atan (b / a) <= 0).
      { destruct (Req_dec (b / a) 0) as [E | E].
        - rewrite E, atan_0; lra.
        - left. rewrite <- atan_0. apply atan_increasing. lra. }
      lra.
    + assert (0 < b / a).
      { unfold Rdiv. assert (/ a < 0) by now apply Rinv_lt_0_compat. nra. }
      assert (0 < atan (b / a)).
      { rewrite <- atan_0. now apply atan_increasing. }
      lra.
  - destruct (Rlt_dec 0 b); [lra|]. destruct (Rlt_dec b 0); lra.
Qed.

(** *** The three axis rotations *)

Lemma sin_cos_sqr (t : R) : sin t * sin t + cos t * cos t = 1.
Proof. pose proof (sin2_cos2 t) as H. unfold Rsqr in H. exact H. Qed.

(** Closes a coordinate equation that is a polynomial identity in the
    coordinates once [sin t * sin t + cos t * cos t] is [1]. *)
Ltac rot_coord t :=
  let H := fresh "H" in
  pose proof (sin_cos_sqr t) as H;
  nsatz.

Ltac rot_inverse t :=
  apply point3D_eq; cbn [x y z rotateX rotateY rotateZ]; real_ops;
  rewrite ?cos_neg, ?sin_neg; rot_coord t.

Lemma rotateX_back (p : Point3D R) (t : R) : rotateX (rotateX p t) (- t) = p.
Proof. rot_inverse t. Qed.

Lemma rotateX_forth (p : Point3D R) (t : R) : rotateX (rotateX p (- t)) t = p.
Proof. rot_inverse t. Qed.

Lemma rotateY_back (p : Point3D R) (t : R) : rotateY (rotateY p t) (- t) = p.
Proof. rot_inverse t. Qed.

Lemma rotateY_forth (p : Point3D R) (t : R) : rotateY (rotateY p (- t)) t = p.
Proof. rot_inverse t. Qed.

Lemma rotateZ_back (p : Point3D R) (t : R) : rotateZ (rotateZ p t) (- t) = p.
Proof. rot_inverse t. Qed.

Lemma rotateZ_forth (p : Point3D R) (t : R) : rotateZ (rotateZ p (- t)) t = p.
Proof. rot_inverse t. Qed.

Lemma toWorld_unfold (pose : BodyPose R) (p : Point3D R) :
  toWorld pose p =
  translate (rotateZ (rotateY (rotateX p (toRad (rx pose))) (toRad (ry pose)))
                     (toRad (rz pose)))
            (translation pose).
Proof. reflexivity. Qed.

Lemma fLocal_unfold (pose : BodyPose R) (p : Point3D R) :
  fLocal pose p =
  rotateX (rotateY (rotateZ (untranslate p (translation pose))
                            (- toRad (rz pose)))
                   (- toRad (ry pose)))
          (- toRad (rx pose)).
Proof. reflexivity. Qed.

Lemma translate_untranslate (p v : Point3D R) : translate (untranslate p v) v = p.
Proof. apply point3D_eq; cbn; lra. Qed.

Lemma untranslate_translate (p v : Point3D R) : untranslate (translate p v) v = p.
Proof. apply point3D_eq; cbn; lra. Qed.

Lemma toWorld_fLocal (pose : BodyPose R) (p : Point3D R) :
  toWorld pose (fLocal pose p) = p.
Proof.
  rewrite toWorld_unfold, fLocal_unfold.
  rewrite rotateX_forth, rotateY_forth, rotateZ_forth.
  apply translate_untranslate.
Qed.

Lemma fLocal_toWorld (pose : BodyPose R) (p : Point3D R) :
  fLocal pose (toWorld pose p) = p.
Proof.
  rewrite toWorld_unfold, fLocal_unfold.
  rewrite untranslate_translate.
  rewrite rotateZ_back, rotateY_back, rotateX_back.
  reflexivity.
Qed.

(** *** The rigid transforms keep distances *)

Ltac dist_coord t :=
  unfold dist3; f_equal; cbn [x y z rotateX rotateY rotateZ translate];
  real_ops; rot_coord t.

Lemma dist3_rotateX (p q : Point3D R) (t : R) :
  dist3 (rotateX p t) (rotateX q t) = dist3 p q.
Proof. dist_coord t. Qed.

Lemma dist3_rotateY (p q : Point3D R) (t : R) :
  dist3 (rotateY p t) (rotateY q t) = dist3 p q.
Proof. dist_coord t. Qed.

Lemma dist3_rotateZ (p q : Point3D R) (t : R) :
  dist3 (rotateZ p t) (rotateZ q t) = dist3 p q.
Proof. dist_coord t. Qed.

Lemma dist3_translate (p q v : Point3D R) :
  dist3 (translate p v) (translate q v) = dist3 p q.
Proof. unfold dist3; f_equal; cbn [x y z translate]; ring. Qed.

Lemma dist3_toWorld (pose : BodyPose R) (p q : Point3D R) :
  dist3 (toWorld pose p) (toWorld pose q) = dist3 p q.
Proof.
  rewrite !toWorld_unfold, dist3_translate, dist3_rotateZ, dist3_rotateY.
  apply dist3_rotateX.
Qed.

Lemma leg_toWorld_unfold (d : HexapodDimensions R) (pose : BodyPose R)
    (i : nat) (p : Point3D R) :
  leg_toWorld d pose i p =
  toWorld pose (translate (rotateZ p (leg_mountAngle d i)) (leg_hipLocal d i)).
Proof. reflexivity. Qed.

Lemma dist3_leg_toWorld (d : HexapodDimensions R) (pose : BodyPose R)
    (i : nat) (p q : Point3D R) :
  dist3 (leg_toWorld d pose i p) (leg_toWorld d pose i q) = dist3 p q.
Proof.
  rewrite !leg_toWorld_unfold, dist3_toWorld, dist3_translate.
  apply dist3_rotateZ.
Qed.

(** The hip, sent to the world frame, is the leg frame's origin sent there. *)
Lemma leg_toWorld_origin (d : HexapodDimensions R) (pose : BodyPose R) (i : nat) :
  leg_toWorld d pose i origin = toWorld pose (leg_hipLocal d i).
Proof.
  rewrite leg_toWorld_unfold. f_equal.
  apply point3D_eq; cbn [x y z translate rotateZ origin]; real_ops; ring.
Qed.

Lemma dist3_self (p : Point3D R) : dist3 p p = 0.
Proof.
  unfold dist3.
  replace ((x p - x p) * (x p - x p) + (y p - y p) * (y p - y p)
           + (z p - z p) * (z p - z p)) with 0 by ring.
  apply sqrt_0.
Qed.

(** *** The foot is rebuilt from [reach] and [height], not from the angles *)

Lemma leg_p3_vLeg (d : HexapodDimensions R) (pose : BodyPose R) (i : nat) :
  leg_p3 d pose i = leg_vLeg d pose i.
Proof.
  unfold leg_p3, leg_height, leg_reach, leg_planarDist, leg_coxaAngle.
  set (v := leg_vLeg d pose i).
  destruct (atan2_polar (x v) (y v)) as [Hc Hs].
  apply point3D_eq; cbn [x y z]; real_ops; [ | | reflexivity].
  - etransitivity; [ | exact Hc]. ring.
  - etransitivity; [ | exact Hs]. ring.
Qed.

Lemma leg_toWorld_vLeg (d : HexapodDimensions R) (pose : BodyPose R) (i : nat) :
  leg_toWorld d pose i (leg_vLeg d pose i) = leg_footWorld d i.
Proof.
  rewrite leg_toWorld_unfold. unfold leg_vLeg. real_ops.
  rewrite rotateZ_forth.
  replace (translate (leg_vLocal d pose i) (leg_hipLocal d i))
    with (fLocal pose (leg_footWorld d i)).
  - apply toWorld_fLocal.
  - apply point3D_eq; unfold leg_vLocal; cbn [x y z translate]; real_ops; ring.
Qed.

(** Access to the legs of the result by position. *)
Lemma solve_legs_nth {A : Type} {num : Number A} (d : HexapodDimensions A)
    (pose : BodyPose A) (i : nat) (leg : LegConfiguration A) :
  nth_error (legs (solveHexapodIK d pose)) i = Some leg ->
  (i < 6)%nat /\ leg = legIK d pose (toWorld pose (leg_hipLocal d i)) i.
Proof.
  rewrite solve_legs.
  do 6 (destruct i as [|i];
        [cbn; intros E; injection E as <-; split; [lia | reflexivity] | ]).
  destruct i; discriminate.
Qed.

Lemma solve_legs_length {A : Type} {num : Number A} (d : HexapodDimensions A)
    (pose : BodyPose A) :
  length (legs (solveHexapodIK d pose)) = 6%nat.
Proof. reflexivity. Qed.

(** *** The hips and the fixed feet *)

Lemma hip_cases (d : HexapodDimensions R) (i : nat) (P : Point3D R -> Prop) :
  (i < 6)%nat ->
  P {| x := middle d; y := 0; z := 0 |} ->
  P {| x := side d; y := - front d; z := 0 |} ->
  P {| x := - side d; y := - front d; z := 0 |} ->
  P {| x := - middle d; y := 0; z := 0 |} ->
  P {| x := - side d; y := front d; z := 0 |} ->
  P {| x := side d; y := front d; z := 0 |} ->
  P (leg_hipLocal d i).
Proof.
  intros Hi P0 P1 P2 P3 P4 P5.
  do 6 (destruct i as [|i]; [assumption|]). lia.
Qed.

Lemma hip_z (d : HexapodDimensions R) (i : nat) : z (leg_hipLocal d i) = 0.
Proof.
  do 6 (destruct i as [|i]; [reflexivity|]). destruct i; reflexivity.
Qed.

Lemma hip_radius_pos (d : HexapodDimensions R) (i : nat) :
  positive_dims d -> (i < 6)%nat -> 0 < radius (leg_hipLocal d i).
Proof.
  intros (Hf & Hs & Hm & _) Hi.
  apply hip_cases; trivial; unfold radius; cbn [x y z];
    apply sqrt_lt_R0; nra.
Qed.

Lemma foot_of_hip (d : HexapodDimensions R) (i : nat) :
  (i < 6)%nat ->
  leg_footWorld d i =
  {| x := cos (leg_mountAngle d i) * (radius (leg_hipLocal d i) + legReach d);
     y := sin (leg_mountAngle d i) * (radius (leg_hipLocal d i) + legReach d);
     z := 0 |}.
Proof.
  intros Hi.
  do 6 (destruct i as [|i]; [reflexivity|]). lia.
Qed.

Lemma hip_polar (d : HexapodDimensions R) (i : nat) :
  cos (leg_mountAngle d i) * radius (leg_hipLocal d i) = x (leg_hipLocal d i) /\
  sin (leg_mountAngle d i) * radius (leg_hipLocal d i) = y (leg_hipLocal d i).
Proof. apply atan2_polar. Qed.

Lemma legReach_pos (d : HexapodDimensions R) :
  positive_dims d -> 0 < legReach d.
Proof.
  intros (_ & _ & _ & Hc & Hf & Ht). unfold legReach. real_ops. lra.
Qed.

Lemma radius_nonneg (p : Point3D R) : 0 <= radius p.
Proof. apply sqrt_pos. Qed.

(** The radius of a point given in polar form. *)
Lemma radius_polar (t r h : R) :
  0 <= r -> radius {| x := cos t * r; y := sin t * r; z := h |} = r.
Proof.
  intros Hr. unfold radius. cbn [x y].
  replace (cos t * r * (cos t * r) + sin t * r * (sin t * r))
    with (r * r) by rot_coord t.
  now apply sqrt_square.
Qed.

Lemma atan2_scale (k a b : R) : 0 < k -> atan2 (k * b) (k * a) = atan2 b a.
Proof.
  intros Hk. unfold atan2.
  destruct (Rlt_dec 0 (k * a)), (Rlt_dec 0 a); try nra.
  - f_equal. field; lra.
  - destruct (Rlt_dec (k * a) 0), (Rlt_dec a 0); try nra.
    + replace (k * b / (k * a)) with (b / a) by (field; lra).
      destruct (Rle_dec 0 (k * b)), (Rle_dec 0 b); try nra; reflexivity.
    + destruct (Rlt_dec 0 (k * b)), (Rlt_dec 0 b); try nra; try reflexivity.
      destruct (Rlt_dec (k * b) 0), (Rlt_dec b 0); try nra; reflexivity.
Qed.

(** *** Poses without rotation *)

Lemma toRad_0 : toRad 0 = 0.
Proof. unfold toRad, MathPI. real_ops. unfold Rdiv. ring. Qed.

Lemma rotateX_0 (p : Point3D R) : rotateX p 0 = p.
Proof.
  apply point3D_eq; cbn [x y z rotateX]; real_ops;
    rewrite ?cos_0, ?sin_0; ring.
Qed.

Lemma rotateY_0 (p : Point3D R) : rotateY p 0 = p.
Proof.
  apply point3D_eq; cbn [x y z rotateY]; real_ops;
    rewrite ?cos_0, ?sin_0; ring.
Qed.

Lemma rotateZ_0 (p : Point3D R) : rotateZ p 0 = p.
Proof.
  apply point3D_eq; cbn [x y z rotateZ]; real_ops;
    rewrite ?cos_0, ?sin_0; ring.
Qed.

Lemma fLocal_translation_pose (a b c : R) (p : Point3D R) :
  fLocal (translation_pose a b c) p =
  {| x := x p - a; y := y p - b; z := z p - c |}.
Proof.
  rewrite fLocal_unfold. cbn [rx ry rz translation_pose].
  rewrite toRad_0, Ropp_0, rotateZ_0, rotateY_0, rotateX_0.
  reflexivity.
Qed.

(** With the body only moved by [(a, b, c)], the foot seen from the hip of
    leg [i] is the nominal reach along the leg's axis, less the move. *)
Lemma vLeg_translation_pose (d : HexapodDimensions R) (a b c : R) (i : nat) :
  (i < 6)%nat ->
  leg_vLeg d (translation_pose a b c) i =
  rotateZ {| x := cos (leg_mountAngle d i) * legReach d - a;
             y := sin (leg_mountAngle d i) * legReach d - b;
             z := - c |}
          (- leg_mountAngle d i).
Proof.
  intros Hi. unfold leg_vLeg. f_equal.
  unfold leg_vLocal. rewrite fLocal_translation_pose, foot_of_hip by assumption.
  destruct (hip_polar d i) as [Hx Hy].
  apply point3D_eq; cbn [x y z]; real_ops.
  - rewrite <- Hx. ring.
  - rewrite <- Hy. ring.
  - rewrite hip_z. ring.
Qed.

Lemma vLeg_height_pose (d : HexapodDimensions R) (t : R) (i : nat) :
  (i < 6)%nat ->
  leg_vLeg d (height_pose t) i = {| x := legReach d; y := 0; z := - t |}.
Proof.
  intros Hi. unfold height_pose. rewrite vLeg_translation_pose by assumption.
  apply point3D_eq; cbn [x y z rotateZ]; real_ops;
    rewrite ?cos_neg, ?sin_neg; [ | | reflexivity];
    rot_coord (leg_mountAngle d i).
Qed.

(** *** The clamp and the inverse cosine *)

Lemma clamp_bound (u : R) : -1 <= clamp u <= 1.
Proof.
  unfold clamp. real_ops. unfold Rmax, Rmin.
  destruct (Rle_dec 1 u); destruct (Rle_dec _ _); lra.
Qed.

Lemma clamp_monotone (u v : R) : u <= v -> clamp u <= clamp v.
Proof.
  intros Huv. unfold clamp. real_ops. unfold Rmax, Rmin.
  destruct (Rle_dec 1 u), (Rle_dec 1 v);
    repeat (destruct (Rle_dec _ _)); lra.
Qed.

Lemma clamp_inside (u : R) : -1 <= u <= 1 -> clamp u = u.
Proof.
  intros Hu. unfold clamp. real_ops. unfold Rmax, Rmin.
  destruct (Rle_dec 1 u); destruct (Rle_dec _ _); lra.
Qed.

Lemma acos_antitone (u v : R) :
  -1 <= u -> u <= v -> v <= 1 -> acos v <= acos u.
Proof.
  intros H1 Huv H2.
  pose proof (acos_bound u). pose proof (acos_bound v).
  apply cos_decr_0; try lra.
  rewrite !cos_acos by lra. exact Huv.
Qed.

Lemma acos_clamp_antitone (u v : R) :
  u <= v -> acos (clamp v) <= acos (clamp u).
Proof.
  intros Huv. pose proof (clamp_bound u). pose proof (clamp_bound v).
  apply acos_antitone; try lra. now apply clamp_monotone.
Qed.

(** *** The leg when the body is only raised *)

Lemma reach_height_pose (d : HexapodDimensions R) (t : R) (i : nat) :
  positive_dims d -> (i < 6)%nat ->
  leg_reach d (height_pose t) i = rest_reach d.
Proof.
  intros Hd Hi. pose proof (legReach_pos Hd) as HL.
  unfold leg_reach, leg_planarDist. rewrite vLeg_height_pose by assumption.
  cbn [x y z]. real_ops.
  replace (legReach d * legReach d + 0 * 0) with (legReach d * legReach d)
    by ring.
  rewrite sqrt_square by lra.
  unfold legReach, rest_reach. real_ops. ring.
Qed.

Lemma height_height_pose (d : HexapodDimensions R) (t : R) (i : nat) :
  (i < 6)%nat -> leg_height d (height_pose t) i = - t.
Proof.
  intros Hi. unfold leg_height. now rewrite vLeg_height_pose.
Qed.

Lemma rest_reach_pos (d : HexapodDimensions R) :
  positive_dims d -> 0 < rest_reach d.
Proof. intros (_ & _ & _ & _ & Hf & Ht). unfold rest_reach. lra. Qed.

Lemma c_height_pose (d : HexapodDimensions R) (t : R) (i : nat) :
  positive_dims d -> (i < 6)%nat ->
  leg_c d (height_pose t) i = sqrt (rest_reach d * rest_reach d + t * t).
Proof.
  intros Hd Hi. unfold leg_c.
  rewrite reach_height_pose, height_height_pose by assumption.
  real_ops. f_equal. ring.
Qed.

Lemma femurAngle_height_pose (d : HexapodDimensions R) (t : R) (i : nat) :
  positive_dims d -> (i < 6)%nat ->
  leg_femurAngle d (height_pose t) i =
  atan (- t / rest_reach d)
  + acos (clamp (cosBeta_of d (sqrt (rest_reach d * rest_reach d + t * t)))).
Proof.
  intros Hd Hi. unfold leg_femurAngle, leg_cosBeta.
  rewrite c_height_pose, reach_height_pose, height_height_pose by assumption.
  real_ops. rewrite atan2_right by now apply rest_reach_pos.
  reflexivity.
Qed.

(** The hypotenuse never vanishes there: no division by zero is met. *)
Lemma c_height_pose_pos (d : HexapodDimensions R) (t : R) (i : nat) :
  positive_dims d -> (i < 6)%nat -> 0 < leg_c d (height_pose t) i.
Proof.
  intros Hd Hi. rewrite c_height_pose by assumption.
  pose proof (rest_reach_pos Hd). apply sqrt_lt_R0. nra.
Qed.

(** [cosBeta] grows with the hypotenuse from [rest_reach] on. *)
Lemma cosBeta_of_monotone (d : HexapodDimensions R) (c1 c2 : R) :
  positive_dims d -> rest_reach d <= c1 -> c1 <= c2 ->
  cosBeta_of d c1 <= cosBeta_of d c2.
Proof.
  intros Hd H1 H12. pose proof (rest_reach_pos Hd) as Hr.
  destruct Hd as (_ & _ & _ & _ & Hf & Ht). unfold rest_reach in *.
  unfold cosBeta_of.
  assert (Hdiff :
    (femur d * femur d + c2 * c2 - tibia d * tibia d) / (2 * femur d * c2)
    - (femur d * femur d + c1 * c1 - tibia d * tibia d) / (2 * femur d * c1)
    = (c2 - c1) * (c1 * c2 - (femur d * femur d - tibia d * tibia d))
      / (2 * femur d * c1 * c2)) by (field; lra).
  assert (0 <= (c2 - c1) * (c1 * c2 - (femur d * femur d - tibia d * tibia d))).
  { apply Rmult_le_pos; nra. }
  assert (0 < 2 * femur d * c1 * c2).
  { repeat apply Rmult_lt_0_compat; lra. }
  assert (0 <= (c2 - c1) * (c1 * c2 - (femur d * femur d - tibia d * tibia d))
                / (2 * femur d * c1 * c2)).
  { apply Rmult_le_pos; [assumption | left; now apply Rinv_0_lt_compat]. }
  lra.
Qed.

(** Raising the body lowers the femur angle, strictly. *)
Lemma femurAngle_height_decreasing (d : HexapodDimensions R) (t1 t2 : R) (i : nat) :
  positive_dims d -> (i < 6)%nat -> 0 <= t1 -> t1 < t2 ->
  leg_femurAngle d (height_pose t2) i < leg_femurAngle d (height_pose t1) i.
Proof.
  intros Hd Hi H1 H12. pose proof (rest_reach_pos Hd) as Hr.
  rewrite !femurAngle_height_pose by assumption.
  assert (Ha : atan (- t2 / rest_reach d) < atan (- t1 / rest_reach d)).
  { apply atan_increasing. unfold Rdiv.
    apply Rmult_lt_compat_r; [now apply Rinv_0_lt_compat | lra]. }
  assert (Hc1 : rest_reach d <= sqrt (rest_reach d * rest_reach d + t1 * t1)).
  { rewrite <- (sqrt_square (rest_reach d)) at 1 by lra.
    apply sqrt_le_1_alt. nra. }
  assert (Hc : sqrt (rest_reach d * rest_reach d + t1 * t1)
               <= sqrt (rest_reach d * rest_reach d + t2 * t2)).
  { apply sqrt_le_1_alt. nra. }
  pose proof (acos_clamp_antitone (cosBeta_of_monotone Hd Hc1 Hc)).
  lra.
Qed.

(** *** Distances from the body center, and degrees *)

Lemma dist3_origin (p : Point3D R) : z p = 0 -> dist3 p origin = radius p.
Proof.
  intros Hz. unfold dist3, radius. cbn [x y z origin]. rewrite Hz.
  f_equal. ring.
Qed.

Lemma foot_radius (d : HexapodDimensions R) (i : nat) :
  positive_dims d -> (i < 6)%nat ->
  radius (leg_footWorld d i) = radius (leg_hipLocal d i) + legReach d.
Proof.
  intros Hd Hi. rewrite foot_of_hip by assumption.
  apply radius_polar.
  pose proof (radius_nonneg (leg_hipLocal d i)).
  pose proof (legReach_pos Hd). lra.
Qed.

Lemma foot_z (d : HexapodDimensions R) (i : nat) :
  (i < 6)%nat -> z (leg_footWorld d i) = 0.
Proof. intros Hi. now rewrite foot_of_hip. Qed.

Lemma toDeg_unfold (r : R) : toDeg r = r * 180 / PI.
Proof. reflexivity. Qed.

Lemma toDeg_increasing (r s : R) : r < s -> toDeg r < toDeg s.
Proof.
  intros Hrs. rewrite !toDeg_unfold. pose proof PI_RGT_0.
  unfold Rdiv. apply Rmult_lt_compat_r; [now apply Rinv_0_lt_compat | lra].
Qed.

Lemma toDeg_monotone (r s : R) : r <= s -> toDeg r <= toDeg s.
Proof.
  intros [Hrs | ->]; [left; now apply toDeg_increasing | right; reflexivity].
Qed.

Lemma toDeg_PI : toDeg PI = 180.
Proof. rewrite toDeg_unfold. pose proof PI_RGT_0. field. lra. Qed.

Lemma toDeg_opp (r : R) : toDeg (- r) = - toDeg r.
Proof. rewrite !toDeg_unfold. unfold Rdiv. ring. Qed.

Lemma toDeg_0 : toDeg 0 = 0.
Proof. rewrite toDeg_unfold. unfold Rdiv. ring. Qed.

(** The foot of the result is the fixed foot point, at every pose. *)
Lemma foot_fixed (d : HexapodDimensions R) (pose : BodyPose R) (i : nat) :
  leg_toWorld d pose i (leg_p3 d pose i) = leg_footWorld d i.
Proof. rewrite leg_p3_vLeg. apply leg_toWorld_vLeg. Qed.

(** The hypotenuse [c] is the distance between the coxa's end and the foot. *)
Lemma c_is_distance (d : HexapodDimensions R) (pose : BodyPose R) (i : nat) :
  dist3 (leg_toWorld d pose i (leg_p1 d pose i))
        (leg_toWorld d pose i (leg_p3 d pose i)) = leg_c d pose i.
Proof.
  rewrite dist3_leg_toWorld. unfold dist3, leg_c, leg_p1, leg_p3.
  cbn [x y z]. real_ops. f_equal.
  rot_coord (leg_coxaAngle d pose i).
Qed.

(** The first two segments keep their lengths in exact arithmetic. *)
Lemma coxa_segment_length (d : HexapodDimensions R) (pose : BodyPose R) (i : nat) :
  0 <= coxa d ->
  dist3 (toWorld pose (leg_hipLocal d i))
        (leg_toWorld d pose i (leg_p1 d pose i)) = coxa d.
Proof.
  intros Hc. rewrite <- leg_toWorld_origin, dist3_leg_toWorld.
  unfold dist3, leg_p1. cbn [x y z origin]. real_ops.
  rewrite <- (sqrt_square (coxa d)) at 5 by assumption.
  f_equal. rot_coord (leg_coxaAngle d pose i).
Qed.

Lemma femur_segment_length (d : HexapodDimensions R) (pose : BodyPose R) (i : nat) :
  0 <= femur d ->
  dist3 (leg_toWorld d pose i (leg_p1 d pose i))
        (leg_toWorld d pose i (leg_p2 d pose i)) = femur d.
Proof.
  intros Hf. rewrite dist3_leg_toWorld.
  unfold dist3, leg_p1, leg_p2. cbn [x y z]. real_ops.
  rewrite <- (sqrt_square (femur d)) at 7 by assumption.
  f_equal.
  pose proof (sin_cos_sqr (leg_coxaAngle d pose i)).
  pose proof (sin_cos_sqr (leg_femurAngle d pose i)).
  nsatz.
Qed.

Lemma toDeg_bound (r : R) : - PI <= r <= PI -> -180 <= toDeg r <= 180.
Proof.
  intros [Hlo Hhi].
  apply toDeg_monotone in Hlo. apply toDeg_monotone in Hhi.
  rewrite toDeg_opp in Hlo. rewrite toDeg_PI in Hlo, Hhi. lra.
Qed.

(** *** The foot of leg 0 at the end of its coxa *)

Lemma mountAngle_leg0 (d : HexapodDimensions R) :
  0 < middle d -> leg_mountAngle d 0 = 0.
Proof. intros Hm. unfold leg_mountAngle. cbn. now apply atan2_pos_axis. Qed.

Lemma vLeg_leg0_shifted (d : HexapodDimensions R) :
  positive_dims d ->
  leg_vLeg d (translation_pose (rest_reach d) 0 0) 0
  = {| x := coxa d; y := 0; z := 0 |}.
Proof.
  intros Hd. rewrite vLeg_translation_pose by lia.
  destruct Hd as (_ & _ & Hm & _).
  rewrite mountAngle_leg0 by assumption.
  rewrite Ropp_0, rotateZ_0, cos_0, sin_0.
  apply point3D_eq; cbn [x y z]; unfold legReach, rest_reach; real_ops; ring.
Qed.

Lemma c_leg0_shifted (d : HexapodDimensions R) :
  positive_dims d ->
  leg_c d (translation_pose (rest_reach d) 0 0) 0 = 0.
Proof.
  intros Hd. unfold leg_c, leg_reach, leg_height, leg_planarDist.
  rewrite vLeg_leg0_shifted by assumption.
  destruct Hd as (_ & _ & _ & Hc & _).
  cbn [x y z]. real_ops.
  replace (coxa d * coxa d + 0 * 0) with (coxa d * coxa d) by ring.
  rewrite sqrt_square by lra.
  replace ((coxa d - coxa d) * (coxa d - coxa d) + 0 * 0) with 0 by ring.
  apply sqrt_0.
Qed.

Lemma positive_default : positive_dims DEFAULT_DIMENSIONS.
Proof. unfold positive_dims; cbn; lra. Qed.

Lemma positive_folded : positive_dims FOLDED_DIMENSIONS.
Proof. unfold positive_dims; cbn; lra. Qed.

Lemma folded_pose_eq :
  FOLDED_POSE = translation_pose (rest_reach FOLDED_DIMENSIONS) 0 0.
Proof.
  unfold FOLDED_POSE, translation_pose, rest_reach. cbn [femur tibia FOLDED_DIMENSIONS].
  f_equal. lra.
Qed.

Lemma c_folded : leg_c FOLDED_DIMENSIONS FOLDED_POSE 0 = 0.
Proof. rewrite folded_pose_eq. apply c_leg0_shifted, positive_folded. Qed.

(** *** The reachable case: the triangle of femur, tibia and hypotenuse *)

Lemma Rabs_le_bounds (a b : R) : Rabs a <= b -> - b <= a <= b.
Proof. unfold Rabs. destruct (Rcase_abs a); lra. Qed.

Lemma quotient_bound (n m : R) : 0 < m -> - m <= n <= m -> -1 <= n / m <= 1.
Proof.
  intros Hm [Hlo Hhi]. assert (0 < / m) by now apply Rinv_0_lt_compat.
  unfold Rdiv. split.
  - replace (-1) with (- m * / m) by (field; lra).
    apply Rmult_le_compat_r; lra.
  - replace 1 with (m * / m) by (field; lra).
    apply Rmult_le_compat_r; lra.
Qed.

Lemma leg_c_nonneg (d : HexapodDimensions R) (pose : BodyPose R) (i : nat) :
  0 <= leg_c d pose i.
Proof. apply sqrt_pos. Qed.

Lemma leg_c_sqr (d : HexapodDimensions R) (pose : BodyPose R) (i : nat) :
  leg_c d pose i * leg_c d pose i
  = leg_reach d pose i * leg_reach d pose i
    + leg_height d pose i * leg_height d pose i.
Proof. unfold leg_c. real_ops. apply sqrt_sqrt. nra. Qed.

Lemma reachable_cosBeta (d : HexapodDimensions R) (pose : BodyPose R) (i : nat) :
  positive_dims d -> reachable d (leg_c d pose i) ->
  -1 <= leg_cosBeta d pose i <= 1.
Proof.
  intros (_ & _ & _ & _ & Hf & Ht) [Hc0 [Hlo Hhi]].
  pose proof (leg_c_nonneg d pose i) as Hc.
  unfold leg_cosBeta. real_ops. set (c := leg_c d pose i) in *.
  assert (Hcpos : 0 < c) by lra.
  apply Rabs_le_bounds in Hlo.
  apply quotient_bound; nra.
Qed.

Lemma reachable_cosGamma (d : HexapodDimensions R) (pose : BodyPose R) (i : nat) :
  positive_dims d -> reachable d (leg_c d pose i) ->
  -1 <= leg_cosGamma d pose i <= 1.
Proof.
  intros (_ & _ & _ & _ & Hf & Ht) [Hc0 [Hlo Hhi]].
  pose proof (leg_c_nonneg d pose i) as Hc.
  unfold leg_cosGamma. real_ops. set (c := leg_c d pose i) in *.
  apply Rabs_le_bounds in Hlo.
  apply quotient_bound; nra.
Qed.

(** When the foot can be reached, the knee is one tibia away from it. *)
Lemma tibia_segment_length (d : HexapodDimensions R) (pose : BodyPose R) (i : nat) :
  positive_dims d -> reachable d (leg_c d pose i) ->
  dist3 (leg_toWorld d pose i (leg_p2 d pose i))
        (leg_toWorld d pose i (leg_p3 d pose i)) = tibia d.
Proof.
  intros Hd Hreach.
  pose proof (reachable_cosBeta pose i Hd Hreach) as Hcb.
  destruct Hd as (_ & _ & _ & _ & Hf & Ht). destruct Hreach as [Hc0 _].
  rewrite dist3_leg_toWorld.
  unfold dist3, leg_p2, leg_p3. cbn [x y z]. real_ops.
  rewrite <- (sqrt_square (tibia d)) at 1 by lra. f_equal.
  pose proof (leg_c_sqr d pose i) as Hc2.
  assert (Hbeta : 2 * femur d * leg_c d pose i
                  * cos (acos (clamp (leg_cosBeta d pose i)))
                  = femur d * femur d + leg_c d pose i * leg_c d pose i
                    - tibia d * tibia d).
  { rewrite clamp_inside, cos_acos by assumption.
    unfold leg_cosBeta. real_ops. field. lra. }
  destruct (atan2_polar (leg_reach d pose i) (leg_height d pose i)) as [Hr Hh].
  change (sqrt (leg_reach d pose i * leg_reach d pose i
                + leg_height d pose i * leg_height d pose i))
    with (leg_c d pose i) in Hr, Hh.
  unfold leg_femurAngle. real_ops. rewrite cos_plus, sin_plus.
  pose proof (sin_cos_sqr (leg_coxaAngle d pose i)) as Hca.
  pose proof (sin_cos_sqr (atan2 (leg_height d pose i) (leg_reach d pose i))) as Ha.
  pose proof (sin_cos_sqr (acos (clamp (leg_cosBeta d pose i)))) as Hb.
  set (c := leg_c d pose i) in *.
  set (ca := cos (atan2 (leg_height d pose i) (leg_reach d pose i))) in *.
  set (sa := sin (atan2 (leg_height d pose i) (leg_reach d pose i))) in *.
  set (cb := cos (acos (clamp (leg_cosBeta d pose i)))) in *.
  set (sb := sin (acos (clamp (leg_cosBeta d pose i)))) in *.
  set (cc := cos (leg_coxaAngle d pose i)) in *.
  set (sc := sin (leg_coxaAngle d pose i)) in *.
  rewrite <- Hr, <- Hh.
  clearbody c ca sa cb sb cc sc. clear Hr Hh Hc2 Hcb Hc0.
  nsatz.
Qed.

Lemma dist3_sqr (p q : Point3D R) :
  dist3 p q * dist3 p q
  = (x p - x q) * (x p - x q) + (y p - y q) * (y p - y q)
    + (z p - z q) * (z p - z q).
Proof.
  unfold dist3. apply sqrt_sqrt.
  pose proof (Rle_0_sqr (x p - x q)). pose proof (Rle_0_sqr (y p - y q)).
  pose proof (Rle_0_sqr (z p - z q)). unfold Rsqr in *. lra.
Qed.

Lemma dot_at_distances (q a b : Point3D R) :
  2 * dot_at q a b
  = dist3 q a * dist3 q a + dist3 q b * dist3 q b - dist3 a b * dist3 a b.
Proof.
  rewrite !dist3_sqr. unfold dot_at. ring.
Qed.

Lemma toRad_toDeg (r : R) : toRad (toDeg r) = r.
Proof.
  unfold toRad, toDeg, MathPI. real_ops. pose proof PI_RGT_0. field. lra.
Qed.

Lemma dist3_sym (p q : Point3D R) : dist3 p q = dist3 q p.
Proof. unfold dist3. f_equal. ring. Qed.

(** When the foot can be reached, the angle at the knee between the femur
    and the tibia is [gammaTri]. *)
Lemma knee_angle (d : HexapodDimensions R) (pose : BodyPose R) (i : nat) :
  positive_dims d -> reachable d (leg_c d pose i) ->
  dot_at (leg_toWorld d pose i (leg_p2 d pose i))
         (leg_toWorld d pose i (leg_p1 d pose i))
         (leg_toWorld d pose i (leg_p3 d pose i))
  = femur d * tibia d * cos (leg_gammaTri d pose i).
Proof.
  intros Hd Hreach.
  pose proof (reachable_cosGamma pose i Hd Hreach) as Hcg.
  pose proof (dot_at_distances (leg_toWorld d pose i (leg_p2 d pose i))
                (leg_toWorld d pose i (leg_p1 d pose i))
                (leg_toWorld d pose i (leg_p3 d pose i))) as Hdot.
  rewrite (dist3_sym (leg_toWorld d pose i (leg_p2 d pose i))
                     (leg_toWorld d pose i (leg_p1 d pose i))) in Hdot.
  rewrite tibia_segment_length, c_is_distance in Hdot by assumption.
  destruct Hd as (_ & _ & _ & _ & Hf & Ht).
  rewrite femur_segment_length in Hdot by lra.
  unfold leg_gammaTri. real_ops.
  rewrite clamp_inside, cos_acos by assumption.
  unfold leg_cosGamma. real_ops.
  apply Rmult_eq_reg_l with 2; [|lra]. rewrite Hdot. field. lra.
Qed.

(** *** The solver on JavaScript numbers

    On finite inputs every operation of the solver but three returns the
    real result: a division needs a divisor that is not zero, a square root
    an argument that is not negative, an inverse cosine an argument in
    [[-1, 1]]. *)

Ltac js_ops :=
  cbn [lit nadd nsub nmul ndiv nneg nsqrt nsin ncos natan2 nacos nmax nmin
       js_number jadd jsub jmul jneg jsin jcos jatan2 jmax jmin] in *.

Lemma jdiv_fin (r s : R) : s <> 0 -> jdiv (Fin r) (Fin s) = Fin (r / s).
Proof.
  intros Hs. unfold jdiv. destruct (Req_dec_T s 0); [contradiction | reflexivity].
Qed.

Lemma jsqrt_fin (r : R) : 0 <= r -> jsqrt (Fin r) = Fin (sqrt r).
Proof.
  intros Hr. unfold jsqrt. destruct (Rlt_dec r 0); [lra | reflexivity].
Qed.

Lemma jacos_fin (r : R) : -1 <= r <= 1 -> jacos (Fin r) = Fin (acos r).
Proof.
  intros [H1 H2]. unfold jacos.
  destruct (Rle_dec (-1) r); [|contradiction].
  destruct (Rle_dec r 1); [reflexivity | contradiction].
Qed.

Lemma js_clamp_fin (r : R) : clamp (Fin r) = Fin (clamp r).
Proof. reflexivity. Qed.

Lemma js_clamp_PInf : clamp PInf = Fin 1.
Proof. unfold clamp. js_ops. f_equal. apply Rmax_right. lra. Qed.

Lemma js_clamp_NInf : clamp NInf = Fin (-1).
Proof. reflexivity. Qed.

Lemma js_toRad (r : R) : toRad (Fin r) = Fin (toRad r).
Proof. unfold toRad, MathPI. js_ops. rewrite jdiv_fin by lra. reflexivity. Qed.

Lemma js_toDeg (r : R) : toDeg (Fin r) = Fin (toDeg r).
Proof.
  unfold toDeg, MathPI. js_ops. pose proof PI_RGT_0.
  rewrite jdiv_fin by lra. reflexivity.
Qed.

Lemma js_rotateX (p : Point3D R) (t : R) :
  rotateX (fin_point p) (Fin t) = fin_point (rotateX p t).
Proof. reflexivity. Qed.

Lemma js_rotateY (p : Point3D R) (t : R) :
  rotateY (fin_point p) (Fin t) = fin_point (rotateY p t).
Proof. reflexivity. Qed.

Lemma js_rotateZ (p : Point3D R) (t : R) :
  rotateZ (fin_point p) (Fin t) = fin_point (rotateZ p t).
Proof. reflexivity. Qed.

Lemma js_toWorld (pose : BodyPose R) (p : Point3D R) :
  toWorld (fin_pose pose) (fin_point p) = fin_point (toWorld pose p).
Proof.
  unfold toWorld. cbn [rx ry rz tx ty tz fin_pose].
  rewrite !js_toRad. reflexivity.
Qed.

Lemma js_fLocal (pose : BodyPose R) (p : Point3D R) :
  fLocal (fin_pose pose) (fin_point p) = fin_point (fLocal pose p).
Proof.
  unfold fLocal. cbn [rx ry rz tx ty tz fin_pose].
  rewrite !js_toRad. reflexivity.
Qed.

Lemma js_getLocalBodyPoints (d : HexapodDimensions R) :
  getLocalBodyPoints (fin_dims d) = map fin_point (getLocalBodyPoints d).
Proof. reflexivity. Qed.

Lemma js_getFixedFootPoints (d : HexapodDimensions R) :
  getFixedFootPoints (fin_dims d) = map fin_point (getFixedFootPoints d).
Proof.
  unfold getFixedFootPoints. rewrite js_getLocalBodyPoints, !map_map.
  apply map_ext. intros hip.
  cbn [x y z fin_point fin_dims coxa femur tibia]. js_ops.
  rewrite jsqrt_fin by nra. reflexivity.
Qed.

Lemma js_at_index (l : list (Point3D R)) (i : nat) :
  at_index (map fin_point l) i = fin_point (at_index l i).
Proof.
  change (nth i (map fin_point l) (fin_point origin) = fin_point (nth i l origin)).
  apply map_nth.
Qed.

Lemma js_leg_hipLocal (d : HexapodDimensions R) (i : nat) :
  leg_hipLocal (fin_dims d) i = fin_point (leg_hipLocal d i).
Proof. unfold leg_hipLocal. rewrite js_getLocalBodyPoints. apply js_at_index. Qed.

Lemma js_leg_footWorld (d : HexapodDimensions R) (i : nat) :
  leg_footWorld (fin_dims d) i = fin_point (leg_footWorld d i).
Proof. unfold leg_footWorld. rewrite js_getFixedFootPoints. apply js_at_index. Qed.

Lemma js_leg_mountAngle (d : HexapodDimensions R) (i : nat) :
  leg_mountAngle (fin_dims d) i = Fin (leg_mountAngle d i).
Proof. unfold leg_mountAngle. rewrite js_leg_hipLocal. reflexivity. Qed.

Lemma js_leg_vLeg (d : HexapodDimensions R) (pose : BodyPose R) (i : nat) :
  leg_vLeg (fin_dims d) (fin_pose pose) i = fin_point (leg_vLeg d pose i).
Proof.
  unfold leg_vLeg, leg_vLocal.
  rewrite js_leg_mountAngle, js_leg_footWorld, js_leg_hipLocal, js_fLocal.
  reflexivity.
Qed.

Lemma js_leg_coxaAngle (d : HexapodDimensions R) (pose : BodyPose R) (i : nat) :
  leg_coxaAngle (fin_dims d) (fin_pose pose) i = Fin (leg_coxaAngle d pose i).
Proof. unfold leg_coxaAngle. rewrite js_leg_vLeg. reflexivity. Qed.

Lemma js_leg_planarDist (d : HexapodDimensions R) (pose : BodyPose R) (i : nat) :
  leg_planarDist (fin_dims d) (fin_pose pose) i = Fin (leg_planarDist d pose i).
Proof.
  unfold leg_planarDist. rewrite js_leg_vLeg.
  cbn [x y z fin_point]. js_ops. rewrite jsqrt_fin by nra. reflexivity.
Qed.

Lemma js_leg_reach (d : HexapodDimensions R) (pose : BodyPose R) (i : nat) :
  leg_reach (fin_dims d) (fin_pose pose) i = Fin (leg_reach d pose i).
Proof. unfold leg_reach. rewrite js_leg_planarDist. reflexivity. Qed.

Lemma js_leg_height (d : HexapodDimensions R) (pose : BodyPose R) (i : nat) :
  leg_height (fin_dims d) (fin_pose pose) i = Fin (leg_height d pose i).
Proof. unfold leg_height. rewrite js_leg_vLeg. reflexivity. Qed.

Lemma js_leg_c (d : HexapodDimensions R) (pose : BodyPose R) (i : nat) :
  leg_c (fin_dims d) (fin_pose pose) i = Fin (leg_c d pose i).
Proof.
  unfold leg_c. rewrite js_leg_reach, js_leg_height.
  js_ops. rewrite jsqrt_fin by nra. reflexivity.
Qed.

Lemma js_leg_cosGamma (d : HexapodDimensions R) (pose : BodyPose R) (i : nat) :
  positive_dims d ->
  leg_cosGamma (fin_dims d) (fin_pose pose) i = Fin (leg_cosGamma d pose i).
Proof.
  intros (_ & _ & _ & _ & Hf & Ht). unfold leg_cosGamma.
  rewrite js_leg_c. cbn [fin_dims femur tibia]. js_ops.
  rewrite jdiv_fin by nra. reflexivity.
Qed.

Lemma js_leg_gammaTri (d : HexapodDimensions R) (pose : BodyPose R) (i : nat) :
  positive_dims d ->
  leg_gammaTri (fin_dims d) (fin_pose pose) i = Fin (leg_gammaTri d pose i).
Proof.
  intros Hd. unfold leg_gammaTri.
  rewrite js_leg_cosGamma, js_clamp_fin by assumption. js_ops.
  rewrite jacos_fin by apply clamp_bound. reflexivity.
Qed.

Lemma js_leg_cosBeta (d : HexapodDimensions R) (pose : BodyPose R) (i : nat) :
  positive_dims d -> leg_c d pose i <> 0 ->
  leg_cosBeta (fin_dims d) (fin_pose pose) i = Fin (leg_cosBeta d pose i).
Proof.
  intros (_ & _ & _ & _ & Hf & Ht) Hc. unfold leg_cosBeta.
  rewrite js_leg_c. cbn [fin_dims femur tibia]. js_ops.
  rewrite jdiv_fin; [reflexivity|].
  intros E. apply Rmult_integral in E as [E | E]; [lra | contradiction].
Qed.

Lemma js_leg_femurAngle (d : HexapodDimensions R) (pose : BodyPose R) (i : nat) :
  positive_dims d -> leg_c d pose i <> 0 ->
  leg_femurAngle (fin_dims d) (fin_pose pose) i = Fin (leg_femurAngle d pose i).
Proof.
  intros Hd Hc. unfold leg_femurAngle.
  rewrite js_leg_cosBeta, js_leg_height, js_leg_reach, js_clamp_fin by assumption.
  js_ops. rewrite jacos_fin by apply clamp_bound. reflexivity.
Qed.

(** With the hypotenuse at zero, [cosBeta] is a division by zero: [0 / 0]
    when femur and tibia are equal, an infinity otherwise. *)
Lemma js_leg_cosBeta_c0 (d : HexapodDimensions R) (pose : BodyPose R) (i : nat) :
  leg_c d pose i = 0 ->
  leg_cosBeta (fin_dims d) (fin_pose pose) i
  = inf_of_sign (femur d * femur d - tibia d * tibia d).
Proof.
  intros Hc. unfold leg_cosBeta.
  rewrite js_leg_c, Hc. cbn [fin_dims femur tibia]. js_ops.
  unfold jdiv. destruct (Req_dec_T (2 * femur d * 0) 0) as [_ | N].
  - f_equal. ring.
  - exfalso. apply N. ring.
Qed.

Lemma js_leg_femurAngle_NaN (d : HexapodDimensions R) (pose : BodyPose R) (i : nat) :
  leg_c d pose i = 0 -> femur d = tibia d ->
  leg_femurAngle (fin_dims d) (fin_pose pose) i = NaN.
Proof.
  intros Hc Hft. unfold leg_femurAngle.
  rewrite js_leg_cosBeta_c0, js_leg_height, js_leg_reach by assumption.
  replace (femur d * femur d - tibia d * tibia d) with 0 by (rewrite Hft; ring).
  unfold inf_of_sign. repeat (destruct (Rlt_dec _ _); try lra).
  reflexivity.
Qed.

Lemma js_leg_femurAngle_finite (d : HexapodDimensions R) (pose : BodyPose R) (i : nat) :
  positive_dims d -> leg_c d pose i <> 0 \/ femur d <> tibia d ->
  finite (leg_femurAngle (fin_dims d) (fin_pose pose) i).
Proof.
  intros Hd Hor.
  destruct (Req_dec (leg_c d pose i) 0) as [Hc | Hc].
  - destruct Hor as [N | Hft]; [contradiction|].
    unfold leg_femurAngle.
    rewrite js_leg_cosBeta_c0, js_leg_height, js_leg_reach by assumption.
    destruct Hd as (_ & _ & _ & _ & Hf & Ht).
    unfold inf_of_sign.
    destruct (Rlt_dec 0 (femur d * femur d - tibia d * tibia d)).
    + rewrite js_clamp_PInf. js_ops. rewrite jacos_fin by lra.
      eexists; reflexivity.
    + destruct (Rlt_dec (femur d * femur d - tibia d * tibia d) 0).
      * rewrite js_clamp_NInf. js_ops. rewrite jacos_fin by lra.
        eexists; reflexivity.
      * exfalso. apply Hft. nra.
  - rewrite js_leg_femurAngle by assumption. eexists; reflexivity.
Qed.

Lemma js_leg_p1 (d : HexapodDimensions R) (pose : BodyPose R) (i : nat) :
  leg_p1 (fin_dims d) (fin_pose pose) i = fin_point (leg_p1 d pose i).
Proof. unfold leg_p1. rewrite js_leg_coxaAngle. reflexivity. Qed.

Lemma js_leg_p2 (d : HexapodDimensions R) (pose : BodyPose R) (i : nat) :
  positive_dims d -> leg_c d pose i <> 0 ->
  leg_p2 (fin_dims d) (fin_pose pose) i = fin_point (leg_p2 d pose i).
Proof.
  intros Hd Hc. unfold leg_p2.
  rewrite js_leg_coxaAngle, js_leg_femurAngle by assumption. reflexivity.
Qed.

Lemma js_leg_p2_NaN (d : HexapodDimensions R) (pose : BodyPose R) (i : nat) :
  leg_c d pose i = 0 -> femur d = tibia d ->
  leg_p2 (fin_dims d) (fin_pose pose) i = nan_point.
Proof.
  intros Hc Hft. unfold leg_p2.
  rewrite js_leg_coxaAngle, js_leg_femurAngle_NaN by assumption. reflexivity.
Qed.

Lemma js_leg_p3 (d : HexapodDimensions R) (pose : BodyPose R) (i : nat) :
  leg_p3 (fin_dims d) (fin_pose pose) i = fin_point (leg_p3 d pose i).
Proof.
  unfold leg_p3. rewrite js_leg_coxaAngle, js_leg_reach, js_leg_height.
  reflexivity.
Qed.

Lemma js_leg_toWorld (d : HexapodDimensions R) (pose : BodyPose R) (i : nat)
    (p : Point3D R) :
  leg_toWorld (fin_dims d) (fin_pose pose) i (fin_point p)
  = fin_point (leg_toWorld d pose i p).
Proof.
  unfold leg_toWorld.
  rewrite js_leg_mountAngle, js_leg_hipLocal, js_rotateZ.
  rewrite <- js_toWorld. reflexivity.
Qed.

Lemma js_leg_toWorld_NaN (d : HexapodDimensions R) (pose : BodyPose R) (i : nat) :
  leg_toWorld (fin_dims d) (fin_pose pose) i nan_point = nan_point.
Proof.
  unfold leg_toWorld, toWorld.
  rewrite js_leg_mountAngle, js_leg_hipLocal.
  cbn [rx ry rz tx ty tz fin_pose]. rewrite !js_toRad.
  reflexivity.
Qed.

(** The result on JavaScript numbers is the real result wherever the
    hypotenuse [c] is not zero. *)
Lemma js_legIK (d : HexapodDimensions R) (pose : BodyPose R)
    (hipWorld : Point3D R) (i : nat) :
  positive_dims d -> leg_c d pose i <> 0 ->
  legIK (fin_dims d) (fin_pose pose) (fin_point hipWorld) i
  = fin_leg (legIK d pose hipWorld i).
Proof.
  intros Hd Hc. rewrite !legIK_eq. unfold fin_leg.
  cbn [legId coxaAngle femurAngle tibiaAngle joints bodyContact coxaJoint
       femurJoint foot].
  rewrite js_leg_coxaAngle, js_leg_femurAngle, js_leg_gammaTri by assumption.
  rewrite js_leg_p1, js_leg_p2, js_leg_p3 by assumption.
  rewrite !js_leg_toWorld, !js_toDeg. reflexivity.
Qed.

Lemma js_solveHexapodIK_legs (d : HexapodDimensions R) (pose : BodyPose R) :
  positive_dims d ->
  (forall i : nat, (i < 6)%nat -> leg_c d pose i <> 0) ->
  legs (solveHexapodIK (fin_dims d) (fin_pose pose))
  = map fin_leg (legs (solveHexapodIK d pose)).
Proof.
  intros Hd Hc. rewrite !solve_legs, map_map.
  cbn [map].
  rewrite !js_leg_hipLocal, !js_toWorld.
  rewrite !js_legIK by (assumption || (apply Hc; lia)).
  reflexivity.
Qed.

Lemma js_solveHexapodIK_bodyCorners (d : HexapodDimensions R) (pose : BodyPose R) :
  bodyCorners (solveHexapodIK (fin_dims d) (fin_pose pose))
  = map fin_point (bodyCorners (solveHexapodIK d pose)).
Proof.
  rewrite !solve_bodyCorners, map_map. cbn [map].
  rewrite !js_leg_hipLocal, !js_toWorld. reflexivity.
Qed.

Lemma js_tibiaAngle (d : HexapodDimensions R) (pose : BodyPose R)
    (hipWorld : Point3D jsnum) (i : nat) :
  positive_dims d ->
  tibiaAngle (legIK (fin_dims d) (fin_pose pose) hipWorld i)
  = Fin (toDeg (leg_gammaTri d pose i)).
Proof.
  intros Hd. rewrite legIK_eq. cbn [tibiaAngle].
  rewrite js_leg_gammaTri, js_toDeg by assumption. reflexivity.
Qed.

(** With the body only raised, no leg meets a division by zero. *)
Lemma js_legs_height_pose (d : HexapodDimensions R) (t : R) :
  positive_dims d ->
  legs (solveHexapodIK (fin_dims d) (fin_pose (height_pose t)))
  = map fin_leg (legs (solveHexapodIK d (height_pose t))).
Proof.
  intros Hd. apply js_solveHexapodIK_legs; [assumption|].
  intros i Hi. pose proof (c_height_pose_pos t Hd Hi). lra.
Qed.

(** The femur angle the solver reports is [NaN] exactly when the hypotenuse
    is zero and femur and tibia have one length. *)
Lemma js_femurAngle_NaN_iff (d : HexapodDimensions R) (pose : BodyPose R) (i : nat) :
  positive_dims d ->
  femurAngle (leg_of (fin_dims d) (fin_pose pose) i) = NaN
  <-> leg_c d pose i = 0 /\ femur d = tibia d.
Proof.
  intros Hd. unfold leg_of. rewrite legIK_eq. cbn [femurAngle]. split.
  - intros HNaN.
    destruct (Req_dec (leg_c d pose i) 0) as [Hc | Hc];
      destruct (Req_dec (femur d) (tibia d)) as [Hft | Hft];
      try (split; assumption); exfalso.
    + destruct (js_leg_femurAngle_finite pose i Hd (or_intror Hft)) as [r Hr].
      rewrite Hr, js_toDeg in HNaN. discriminate.
    + destruct (js_leg_femurAngle_finite pose i Hd (or_introl Hc)) as [r Hr].
      rewrite Hr, js_toDeg in HNaN. discriminate.
    + destruct (js_leg_femurAngle_finite pose i Hd (or_introl Hc)) as [r Hr].
      rewrite Hr, js_toDeg in HNaN. discriminate.
  - intros [Hc Hft]. rewrite js_leg_femurAngle_NaN by assumption. reflexivity.
Qed.

(** In exact arithmetic the first two segments of every leg keep their
    lengths, whatever the femur angle; on JavaScript numbers the joints are
    these real points wherever the hypotenuse is not zero ([js_legIK]). *)
Lemma segment_lengths (d : HexapodDimensions R) (pose : BodyPose R)
    (i : nat) (leg : LegConfiguration R) :
  positive_dims d ->
  nth_error (legs (solveHexapodIK d pose)) i = Some leg ->
  dist3 (bodyContact (joints leg)) (coxaJoint (joints leg)) = coxa d /\
  dist3 (coxaJoint (joints leg)) (femurJoint (joints leg)) = femur d.
Proof.
  intros (_ & _ & _ & Hc & Hf & _) Hleg.
  apply solve_legs_nth in Hleg as [_ ->].
  rewrite legIK_eq. cbn [joints bodyContact coxaJoint femurJoint].
  split; [apply coxa_segment_length | apply femur_segment_length]; lra.
Qed.
(** ** The solver on doubles *)

Section DoubleTrace.

Import PrimFloat.
Import Double.

Ltac literal_cases :=
  unfold double_of_literal;
  repeat match goal with
         | |- context [Req_dec_T ?a ?b] => destruct (Req_dec_T a b); try lra
         end;
  reflexivity.

Lemma double_lit_0 : double_of_literal 0 = 0%float.
Proof. literal_cases. Qed.

Lemma double_lit_half : double_of_literal 0.5 = 0.5%float.
Proof. literal_cases. Qed.

Lemma double_lit_180 : double_of_literal 180 = 180%float.
Proof. literal_cases. Qed.

Lemma double_lit_PI : double_of_literal PI = 0x1.921fb54442d18p+1%float.
Proof. pose proof PI2_3_2. pose proof PI_4. literal_cases. Qed.

(** The library that answers with its argument is conforming: the
    hypothesis [conforming] can be met. *)
Lemma conforming_inhabited : exists m : MathLibrary, conforming m.
Proof.
  exists {| Math_sin := fun t => t; Math_cos := fun _ => 1%float;
            Math_atan2 := fun b _ => b; Math_acos := fun _ => 0%float |}.
  split; reflexivity.
Qed.

Lemma positive_long_femur : Double.positive_dims LONG_FEMUR_DIMENSIONS.
Proof. repeat split. Qed.

Variable m : MathLibrary.
Hypothesis ecma : conforming m.

Let num : Number float := double_number m.
#[local] Existing Instance num.

Ltac lits :=
  rewrite ?double_lit_0, ?double_lit_half, ?double_lit_180, ?double_lit_PI.

Ltac dbl_ops :=
  cbn [lit nadd nsub nmul ndiv nneg nsqrt nsin ncos natan2 nacos nmax nmin
       double_number num x y z front side middle coxa femur tibia
       tx ty tz rx ry rz LONG_FEMUR_DIMENSIONS Double.identity_pose].

(** One call of the math library at an argument where ECMA-262 fixes it. *)
Ltac ecma_step :=
  match goal with
  | |- context [Math_cos m ?t] => rewrite (@cos_zero m ecma t) by reflexivity
  | |- context [Math_sin m ?t] => rewrite (@sin_zero m ecma t) by reflexivity
  | |- context [Math_atan2 m ?b ?a] =>
      rewrite (@atan2_zero m ecma b a) by reflexivity
  end.

(** [toRad] and [toDeg] call no library function. *)
Lemma double_toRad_0 : toRad 0%float = 0%float.
Proof. unfold toRad, MathPI. dbl_ops. lits. reflexivity. Qed.

Lemma double_toDeg_toRad_30 : toDeg (toRad 30%float) = next_down 30%float.
Proof. unfold toDeg, toRad, MathPI. dbl_ops. lits. reflexivity. Qed.

(** The leg callback for leg 0 of [LONG_FEMUR_DIMENSIONS] at the identity
    pose, constant by constant. *)
Lemma double_hipLocal :
  leg_hipLocal LONG_FEMUR_DIMENSIONS 0 = {| x := 100; y := 0; z := 0 |}%float.
Proof.
  unfold leg_hipLocal, at_index, getLocalBodyPoints. cbn [nth].
  dbl_ops. lits. reflexivity.
Qed.

Lemma double_mountAngle : leg_mountAngle LONG_FEMUR_DIMENSIONS 0 = 0%float.
Proof.
  unfold leg_mountAngle. rewrite double_hipLocal. dbl_ops. ecma_step.
  reflexivity.
Qed.

(** [legReach] is [1 + 1e16 + 1.5]: the first sum rounds to [1e16], the
    second to [1e16 + 2]. *)
Lemma double_footWorld :
  leg_footWorld LONG_FEMUR_DIMENSIONS 0
  = {| x := 10000000000000102; y := 0; z := 0 |}%float.
Proof.
  unfold leg_footWorld, at_index, getFixedFootPoints, getLocalBodyPoints.
  cbn [nth map]. dbl_ops. lits. repeat ecma_step. reflexivity.
Qed.

Lemma double_fLocal :
  fLocal Double.identity_pose (leg_footWorld LONG_FEMUR_DIMENSIONS 0)
  = {| x := 10000000000000102; y := 0; z := 0 |}%float.
Proof.
  rewrite double_footWorld. unfold fLocal, rotateX, rotateY, rotateZ.
  dbl_ops. rewrite !double_toRad_0. dbl_ops. repeat ecma_step. reflexivity.
Qed.

Lemma double_vLeg :
  leg_vLeg LONG_FEMUR_DIMENSIONS Double.identity_pose 0
  = {| x := 10000000000000002; y := 0; z := 0 |}%float.
Proof.
  unfold leg_vLeg, leg_vLocal.
  rewrite double_fLocal, double_hipLocal, double_mountAngle.
  unfold rotateZ. dbl_ops. repeat ecma_step. reflexivity.
Qed.

Lemma double_coxaAngle :
  leg_coxaAngle LONG_FEMUR_DIMENSIONS Double.identity_pose 0 = 0%float.
Proof.
  unfold leg_coxaAngle. rewrite double_vLeg. dbl_ops. ecma_step. reflexivity.
Qed.

(** [reach] is [(1e16 + 2) - 1], which rounds to [1e16]. *)
Lemma double_reach :
  leg_reach LONG_FEMUR_DIMENSIONS Double.identity_pose 0 = 1e16%float.
Proof.
  unfold leg_reach, leg_planarDist. rewrite double_vLeg. dbl_ops. reflexivity.
Qed.

(** [p3_plane.h] is [1 + 1e16], which rounds to [1e16]. *)
Lemma double_p3 :
  leg_p3 LONG_FEMUR_DIMENSIONS Double.identity_pose 0
  = {| x := 1e16; y := 0; z := 0 |}%float.
Proof.
  unfold leg_p3, leg_height. rewrite double_coxaAngle, double_reach, double_vLeg.
  dbl_ops. repeat ecma_step. reflexivity.
Qed.

Lemma double_foot :
  foot (joints (leg_of LONG_FEMUR_DIMENSIONS Double.identity_pose 0))
  = {| x := 10000000000000100; y := 0; z := 0 |}%float.
Proof.
  unfold leg_of. rewrite legIK_eq. cbn [joints foot].
  rewrite double_p3. unfold leg_toWorld.
  rewrite double_mountAngle, double_hipLocal.
  unfold toWorld, rotateX, rotateY, rotateZ.
  dbl_ops. rewrite !double_toRad_0. dbl_ops. repeat ecma_step. reflexivity.
Qed.

Lemma double_leg0 :
  nth_error (legs (solveHexapodIK LONG_FEMUR_DIMENSIONS Double.identity_pose)) 0
  = Some (leg_of LONG_FEMUR_DIMENSIONS Double.identity_pose 0).
Proof. reflexivity. Qed.

End DoubleTrace.


(** *** Further facts on the solver *)

Lemma toDeg_toRad (r : R) : toDeg (toRad r) = r.
Proof.
  unfold toRad, toDeg, MathPI. real_ops. pose proof PI_RGT_0. field. lra.
Qed.

Lemma toDeg_2PI : toDeg (2 * PI) = 360.
Proof. rewrite toDeg_unfold. pose proof PI_RGT_0. field. lra. Qed.

Lemma coxaAngle_bound (d : HexapodDimensions R) (pose : BodyPose R) (i : nat) :
  -180 < toDeg (leg_coxaAngle d pose i) <= 180.
Proof.
  unfold leg_coxaAngle. real_ops.
  destruct (atan2_bound (x (leg_vLeg d pose i)) (y (leg_vLeg d pose i)))
    as [Hlo Hhi].
  apply toDeg_increasing in Hlo. apply toDeg_monotone in Hhi.
  rewrite toDeg_opp, toDeg_PI in Hlo. rewrite toDeg_PI in Hhi. lra.
Qed.

Lemma femur_sum_bound (a u : R) :
  - PI < a <= PI -> -180 < toDeg (a + acos u) <= 360.
Proof.
  intros [Hlo Hhi]. pose proof (acos_bound u) as [H0 H1].
  assert (H2 : - PI < a + acos u) by lra.
  assert (H3 : a + acos u <= 2 * PI) by lra.
  apply toDeg_increasing in H2. apply toDeg_monotone in H3.
  rewrite toDeg_opp, toDeg_PI in H2. rewrite toDeg_2PI in H3. lra.
Qed.

Lemma gammaTri_bound (d : HexapodDimensions R) (pose : BodyPose R) (i : nat) :
  0 <= toDeg (leg_gammaTri d pose i) <= 180.
Proof.
  unfold leg_gammaTri. real_ops.
  pose proof (acos_bound (clamp (leg_cosGamma d pose i))) as [Hlo Hhi].
  apply toDeg_monotone in Hlo. apply toDeg_monotone in Hhi.
  rewrite toDeg_0 in Hlo. rewrite toDeg_PI in Hhi. lra.
Qed.

(** Rotations about one axis add their angles. *)
Ltac rot_compose :=
  apply point3D_eq; cbn [x y z rotateX rotateY rotateZ]; real_ops;
  rewrite ?cos_plus, ?sin_plus; ring.

(** Opposite hips, and what a hip has of its foot. *)
Lemma hip_opposite (d : HexapodDimensions R) (k : nat) :
  (k < 3)%nat -> leg_hipLocal d (k + 3) = opposite (leg_hipLocal d k).
Proof.
  intros Hk.
  do 3 (destruct k as [|k]; [apply point3D_eq; cbn; real_ops; ring|]).
  lia.
Qed.

Lemma radius_opposite (p : Point3D R) : radius (opposite p) = radius p.
Proof. unfold radius. cbn [x y opposite]. f_equal. ring. Qed.

Lemma foot_scaled (d : HexapodDimensions R) (i : nat) :
  positive_dims d -> (i < 6)%nat ->
  let k := (radius (leg_hipLocal d i) + legReach d) / radius (leg_hipLocal d i) in
  leg_footWorld d i =
  {| x := k * x (leg_hipLocal d i); y := k * y (leg_hipLocal d i); z := 0 |}.
Proof.
  intros Hd Hi k. pose proof (hip_radius_pos Hd Hi) as Hr.
  rewrite foot_of_hip by assumption.
  destruct (hip_polar d i) as [Hx Hy].
  apply point3D_eq; cbn [x y z]; [ | | reflexivity].
  - rewrite <- Hx. unfold k. field. lra.
  - rewrite <- Hy. unfold k. field. lra.
Qed.

(** *** The shin, whether or not the foot can be reached *)

(** The square of the distance from the knee to the foot, by the law of
    cosines with the angle [betaTri] the solver chose. *)
Lemma shin_sqr (d : HexapodDimensions R) (pose : BodyPose R) (i : nat) :
  let c := leg_c d pose i in
  let cosB := cos (acos (clamp (leg_cosBeta d pose i))) in
  dist3 (leg_toWorld d pose i (leg_p2 d pose i))
        (leg_toWorld d pose i (leg_p3 d pose i))
  * dist3 (leg_toWorld d pose i (leg_p2 d pose i))
          (leg_toWorld d pose i (leg_p3 d pose i))
  = femur d * femur d + c * c - 2 * femur d * c * cosB.
Proof.
  cbn zeta. rewrite dist3_leg_toWorld, dist3_sqr.
  unfold leg_p2, leg_p3. cbn [x y z]. real_ops.
  pose proof (leg_c_sqr d pose i) as Hc2.
  destruct (atan2_polar (leg_reach d pose i) (leg_height d pose i)) as [Hr Hh].
  change (sqrt (leg_reach d pose i * leg_reach d pose i
                + leg_height d pose i * leg_height d pose i))
    with (leg_c d pose i) in Hr, Hh.
  unfold leg_femurAngle. real_ops. rewrite cos_plus, sin_plus.
  pose proof (sin_cos_sqr (leg_coxaAngle d pose i)) as Hca.
  pose proof (sin_cos_sqr (atan2 (leg_height d pose i) (leg_reach d pose i))) as Ha.
  pose proof (sin_cos_sqr (acos (clamp (leg_cosBeta d pose i)))) as Hb.
  set (c := leg_c d pose i) in *.
  set (ca := cos (atan2 (leg_height d pose i) (leg_reach d pose i))) in *.
  set (sa := sin (atan2 (leg_height d pose i) (leg_reach d pose i))) in *.
  set (cb := cos (acos (clamp (leg_cosBeta d pose i)))) in *.
  set (sb := sin (acos (clamp (leg_cosBeta d pose i)))) in *.
  set (cc := cos (leg_coxaAngle d pose i)) in *.
  set (sc := sin (leg_coxaAngle d pose i)) in *.
  rewrite <- Hr, <- Hh.
  clearbody c ca sa cb sb cc sc. clear Hr Hh Hc2.
  nsatz.
Qed.

Lemma dist3_nonneg (p q : Point3D R) : 0 <= dist3 p q.
Proof. apply sqrt_pos. Qed.

Lemma sqr_eq_nonneg (a b : R) : 0 <= a -> 0 <= b -> a * a = b * b -> a = b.
Proof. intros Ha Hb E. nra. Qed.

Lemma clamp_above (u : R) : 1 <= u -> clamp u = 1.
Proof.
  intros Hu. unfold clamp. real_ops. unfold Rmax, Rmin.
  destruct (Rle_dec 1 u); [|lra]. destruct (Rle_dec (-1) 1); lra.
Qed.

Lemma clamp_below (u : R) : u <= -1 -> clamp u = -1.
Proof.
  intros Hu. unfold clamp. real_ops. unfold Rmax, Rmin.
  destruct (Rle_dec 1 u); [lra|]. destruct (Rle_dec (-1) u); lra.
Qed.

Lemma quotient_ge_1 (n m : R) : 0 < m -> m <= n -> 1 <= n / m.
Proof.
  intros Hm Hn. assert (0 < / m) by now apply Rinv_0_lt_compat.
  unfold Rdiv. replace 1 with (m * / m) by (field; lra).
  apply Rmult_le_compat_r; lra.
Qed.

Lemma quotient_le_m1 (n m : R) : 0 < m -> n <= - m -> n / m <= -1.
Proof.
  intros Hm Hn. assert (0 < / m) by now apply Rinv_0_lt_compat.
  unfold Rdiv. replace (-1) with (- m * / m) by (field; lra).
  apply Rmult_le_compat_r; lra.
Qed.

(** The cosine of [betaTri] in the three ways of missing the foot. *)
Lemma cosB_cases (d : HexapodDimensions R) (pose : BodyPose R) (i : nat) :
  positive_dims d -> 0 < leg_c d pose i ->
  let c := leg_c d pose i in
  let cosB := cos (acos (clamp (leg_cosBeta d pose i))) in
  (femur d + tibia d <= c -> cosB = 1) /\
  (c <= femur d - tibia d -> cosB = 1) /\
  (c <= tibia d - femur d -> cosB = -1).
Proof.
  intros (_ & _ & _ & _ & Hf & Ht) Hc. cbn zeta.
  unfold leg_cosBeta. real_ops. set (c := leg_c d pose i) in *.
  assert (Hden : 0 < 2 * femur d * c) by nra.
  repeat split; intros Hcase.
  - rewrite clamp_above, acos_1, cos_0; [reflexivity|].
    apply quotient_ge_1; nra.
  - rewrite clamp_above, acos_1, cos_0; [reflexivity|].
    apply quotient_ge_1; nra.
  - rewrite clamp_below; [|apply quotient_le_m1; nra].
    replace (-1) with (- (1)) by lra.
    rewrite acos_opp, acos_1, Rminus_0_r, cos_PI. lra.
Qed.

(** Whatever the numbers, the solver returns six legs and six body
    corners; the leg at position [i] has [legId = i], and its body contact
    point is the body corner at position [i]. *)
Lemma legs_numbered {A : Type} {num : Number A}
    (d : HexapodDimensions A) (pose : BodyPose A) :
  length (legs (solveHexapodIK d pose)) = 6%nat /\
  length (bodyCorners (solveHexapodIK d pose)) = 6%nat /\
  map (@legId A) (legs (solveHexapodIK d pose)) = [0; 1; 2; 3; 4; 5]%nat /\
  map (fun leg => bodyContact (joints leg)) (legs (solveHexapodIK d pose))
  = bodyCorners (solveHexapodIK d pose).
Proof. repeat split. Qed.

(** The infinities pass through the conversions between degrees and
    radians. *)
Lemma inf_of_sign_pos (r : R) : 0 < r -> inf_of_sign r = PInf.
Proof.
  intros Hr. unfold inf_of_sign. destruct (Rlt_dec 0 r); [reflexivity | contradiction].
Qed.

Lemma inf_of_sign_neg (r : R) : r < 0 -> inf_of_sign r = NInf.
Proof.
  intros Hr. unfold inf_of_sign. destruct (Rlt_dec 0 r); [lra|].
  destruct (Rlt_dec r 0); [reflexivity | contradiction].
Qed.

Lemma jdiv_PInf_pos (s : R) : 0 < s -> jdiv PInf (Fin s) = PInf.
Proof. intros Hs. unfold jdiv. destruct (Rlt_dec s 0); [lra | reflexivity]. Qed.

Lemma jdiv_NInf_pos (s : R) : 0 < s -> jdiv NInf (Fin s) = NInf.
Proof. intros Hs. unfold jdiv. destruct (Rlt_dec s 0); [lra | reflexivity]. Qed.

Lemma js_toRad_PInf : toRad PInf = PInf.
Proof.
  unfold toRad, MathPI. js_ops.
  rewrite inf_of_sign_pos by apply PI_RGT_0. apply jdiv_PInf_pos. lra.
Qed.

Lemma js_toRad_NInf : toRad NInf = NInf.
Proof.
  unfold toRad, MathPI. js_ops. pose proof PI_RGT_0.
  rewrite inf_of_sign_neg by lra. apply jdiv_NInf_pos. lra.
Qed.

Lemma js_toDeg_PInf : toDeg PInf = PInf.
Proof.
  unfold toDeg, MathPI. js_ops.
  rewrite inf_of_sign_pos by lra. apply jdiv_PInf_pos, PI_RGT_0.
Qed.

Lemma js_toDeg_NInf : toDeg NInf = NInf.
Proof.
  unfold toDeg, MathPI. js_ops.
  rewrite inf_of_sign_neg by lra. apply jdiv_NInf_pos, PI_RGT_0.
Qed.

(** *** The bars of the telemetry panel *)







(** *** The scene *)

Lemma distanceTo_toVec3 (p q : Point3D R) :
  Hexapod3D.distanceTo (Hexapod3D.toVec3 p) (Hexapod3D.toVec3 q) = dist3 p q.
Proof.
  unfold Hexapod3D.distanceTo, Hexapod3D.toVec3, dist3. real_ops.
  f_equal. ring.
Qed.

Lemma Strut_dist_dist3 (p q : Point3D R) : Hexapod3D.Strut_dist p q = dist3 p q.
Proof. apply distanceTo_toVec3. Qed.

Lemma mapi_from_nth_error {X Y : Type} (f : X -> nat -> Y) (l : list X)
    (n i : nat) :
  nth_error (mapi_from f n l) i
  = option_map (fun a => f a (n + i)%nat) (nth_error l i).
Proof.
  revert n i. induction l as [|a l IH]; intros n i.
  - destruct i; reflexivity.
  - destruct i as [|i]; cbn.
    + now rewrite Nat.add_0_r.
    + rewrite IH. now rewrite Nat.add_succ_r.
Qed.

Lemma at_index_nth_error {A : Type} {num : Number A} (l : list (Point3D A))
    (i : nat) :
  (i < length l)%nat -> nth_error l i = Some (at_index l i).
Proof. intros Hi. unfold at_index. now apply nth_error_nth'. Qed.

Lemma toWorld_origin (pose : BodyPose R) : toWorld pose origin = translation pose.
Proof.
  rewrite toWorld_unfold.
  apply point3D_eq;
    cbn [x y z translate translation rotateX rotateY rotateZ origin];
    real_ops; ring.
Qed.

Lemma dist3_origin_radius_hip (d : HexapodDimensions R) (i : nat) :
  dist3 origin (leg_hipLocal d i) = radius (leg_hipLocal d i).
Proof. rewrite dist3_sym. apply dist3_origin, hip_z. Qed.

Lemma centroid_bodyCorners (d : HexapodDimensions R) (pose : BodyPose R) :
  Hexapod3D.centroid (bodyCorners (solveHexapodIK d pose)) = translation pose.
Proof.
  rewrite solve_bodyCorners. cbn [map]. unfold Hexapod3D.centroid.
  cbv zeta. cbn [fold_left length].
  replace (INR 6) with 6 by (simpl; lra).
  unfold leg_hipLocal.
  cbn [at_index nth getLocalBodyPoints toWorld rotateX rotateY rotateZ
       x y z translation].
  real_ops.
  unfold translation. apply point3D_eq; cbn [x y z]; field.
Qed.

Lemma perimeter_nth {A : Type} {num : Number A} (l : list (Point3D A)) (i : nat) :
  (i < length l)%nat ->
  nth_error (Hexapod3D.perimeter l) i
  = Some (at_index l i, at_index l ((i + 1) mod length l)).
Proof.
  intros Hi. unfold Hexapod3D.perimeter, mapi.
  rewrite mapi_from_nth_error, (at_index_nth_error l Hi). reflexivity.
Qed.

Lemma perimeter_six {A : Type} {num : Number A} (c0 c1 c2 c3 c4 c5 : Point3D A) :
  Hexapod3D.perimeter [c0; c1; c2; c3; c4; c5]
  = [(c0, c1); (c1, c2); (c2, c3); (c3, c4); (c4, c5); (c5, c0)].
Proof. reflexivity. Qed.

Lemma sqrt_sqr_double (a : R) : 0 < a -> sqrt ((a + a) * (a + a)) = 2 * a.
Proof. intros Ha. rewrite sqrt_square by lra. ring. Qed.

(** The sides of the hexagon of the hips, and their distances from the
    center. *)
Lemma hip_edges (d : HexapodDimensions R) :
  positive_dims d ->
  let edge := sqrt ((side d - middle d) * (side d - middle d)
                    + front d * front d) in
  dist3 (leg_hipLocal d 0) (leg_hipLocal d 1) = edge /\
  dist3 (leg_hipLocal d 1) (leg_hipLocal d 2) = 2 * side d /\
  dist3 (leg_hipLocal d 2) (leg_hipLocal d 3) = edge /\
  dist3 (leg_hipLocal d 3) (leg_hipLocal d 4) = edge /\
  dist3 (leg_hipLocal d 4) (leg_hipLocal d 5) = 2 * side d /\
  dist3 (leg_hipLocal d 5) (leg_hipLocal d 0) = edge.
Proof.
  intros (_ & Hs & _). cbn zeta.
  unfold dist3, leg_hipLocal. cbn [at_index nth getLocalBodyPoints x y z].
  real_ops.
  repeat split; try (f_equal; ring).
  - rewrite <- (sqrt_sqr_double Hs). f_equal. ring.
  - rewrite <- (sqrt_sqr_double Hs). f_equal. ring.
Qed.

Lemma hip_radii (d : HexapodDimensions R) :
  positive_dims d ->
  let corner := sqrt (side d * side d + front d * front d) in
  map (fun i => radius (leg_hipLocal d i)) [0; 1; 2; 3; 4; 5]%nat
  = [middle d; corner; corner; middle d; corner; corner].
Proof.
  intros (_ & _ & Hm & _). cbn zeta. cbn [map].
  unfold radius, leg_hipLocal. cbn [at_index nth getLocalBodyPoints x y z].
  real_ops.
  assert (Hmid : sqrt (middle d * middle d + 0 * 0) = middle d).
  { replace (middle d * middle d + 0 * 0) with (middle d * middle d) by ring.
    apply sqrt_square. lra. }
  replace (- middle d * - middle d + 0 * 0) with (middle d * middle d + 0 * 0)
    by ring.
  rewrite Hmid.
  replace (side d * side d + - front d * - front d)
    with (side d * side d + front d * front d) by ring.
  replace (- side d * - side d + - front d * - front d)
    with (side d * side d + front d * front d) by ring.
  replace (- side d * - side d + front d * front d)
    with (side d * side d + front d * front d) by ring.
  reflexivity.
Qed.

(** *** The state of [App] *)

Lemma getDimension_setDimension (d : HexapodDimensions R)
    (key' key : Controls.DimensionKey) (value : R) :
  App.getDimension (App.setDimension d key' value) key
  = if App.DimensionKey_eqb key' key then value else App.getDimension d key.
Proof. destruct key', key; reflexivity. Qed.

Lemma getPose_setPose (p : BodyPose R) (key' key : Controls.PoseKey) (value : R) :
  App.getPose (App.setPose p key' value) key
  = if App.PoseKey_eqb key' key then value else App.getPose p key.
Proof. destruct key', key; reflexivity. Qed.

Lemma DimensionKey_eqb_eq (a b : Controls.DimensionKey) :
  App.DimensionKey_eqb a b = true <-> a = b.
Proof. destruct a, b; cbn; split; congruence. Qed.

Lemma PoseKey_eqb_eq (a b : Controls.PoseKey) :
  App.PoseKey_eqb a b = true <-> a = b.
Proof. destruct a, b; cbn; split; congruence. Qed.

Lemma initial_in_ranges : App.in_ranges App.initial.
Proof.
  split; intros key; destruct key; unfold Controls.within; cbn; lra.
Qed.

Lemma default_in_ranges (flag : bool) :
  App.in_ranges {| App.dimensions := DEFAULT_DIMENSIONS;
                   App.pose := DEFAULT_POSE;
                   App.isDataPanelOpen := flag |}.
Proof.
  split; intros key; destruct key; unfold Controls.within; cbn; lra.
Qed.

Lemma handle_in_ranges (st : App.State) (ev : App.Event) :
  App.in_ranges st -> App.from_slider ev -> App.in_ranges (App.handle st ev).
Proof.
  intros [Hdim Hpose] Hev. destruct ev as [key value | key value | | ].
  - split; [|exact Hpose]. intros k. cbn [App.handle App.dimensions].
    rewrite getDimension_setDimension.
    destruct (App.DimensionKey_eqb key k) eqn:E; [|apply Hdim].
    apply DimensionKey_eqb_eq in E. subst k. exact Hev.
  - split; [exact Hdim|]. intros k. cbn [App.handle App.pose].
    rewrite getPose_setPose.
    destruct (App.PoseKey_eqb key k) eqn:E; [|apply Hpose].
    apply PoseKey_eqb_eq in E. subst k. exact Hev.
  - apply default_in_ranges.
  - split; [exact Hdim | exact Hpose].
Qed.

Lemma run_in_ranges (events : list App.Event) (st : App.State) :
  App.in_ranges st -> Forall App.from_slider events ->
  App.in_ranges (App.run st events).
Proof.
  revert st. induction events as [|ev events IH]; intros st Hst Hevs.
  - exact Hst.
  - inversion Hevs as [|? ? Hev Hrest]; subst.
    cbn [App.run fold_left]. apply IH; [|exact Hrest].
    now apply handle_in_ranges.
Qed.

Lemma in_ranges_positive (st : App.State) :
  App.in_ranges st -> positive_dims (App.dimensions st).
Proof.
  intros [Hdim _]. unfold positive_dims.
  pose proof (Hdim Controls.k_front) as H1.
  pose proof (Hdim Controls.k_side) as H2.
  pose proof (Hdim Controls.k_middle) as H3.
  pose proof (Hdim Controls.k_coxa) as H4.
  pose proof (Hdim Controls.k_femur) as H5.
  pose proof (Hdim Controls.k_tibia) as H6.
  unfold Controls.within in *. cbn in *. repeat split; lra.
Qed.

(** *** The foot at the end of the coxa *)

Lemma vLeg_fold_pose (d : HexapodDimensions R) (i : nat) :
  (i < 6)%nat ->
  leg_vLeg d (fold_pose d i) i = {| x := coxa d; y := 0; z := 0 |}.
Proof.
  intros Hi. unfold fold_pose. rewrite vLeg_translation_pose by assumption.
  apply point3D_eq; cbn [x y z rotateZ]; unfold legReach, rest_reach; real_ops;
    rewrite ?cos_neg, ?sin_neg; [ | | ring];
    rot_coord (leg_mountAngle d i).
Qed.

Lemma c_fold_pose (d : HexapodDimensions R) (i : nat) :
  0 < coxa d -> (i < 6)%nat -> leg_c d (fold_pose d i) i = 0.
Proof.
  intros Hc Hi. unfold leg_c, leg_reach, leg_height, leg_planarDist.
  rewrite vLeg_fold_pose by assumption. cbn [x y z]. real_ops.
  replace (coxa d * coxa d + 0 * 0) with (coxa d * coxa d) by ring.
  rewrite sqrt_square by lra.
  replace ((coxa d - coxa d) * (coxa d - coxa d) + 0 * 0) with 0 by ring.
  apply sqrt_0.
Qed.

Lemma c_zero_reach_height (d : HexapodDimensions R) (pose : BodyPose R) (i : nat) :
  leg_c d pose i = 0 -> leg_reach d pose i = 0 /\ leg_height d pose i = 0.
Proof.
  intros Hc. pose proof (leg_c_sqr d pose i) as H. rewrite Hc in H.
  split; nra.
Qed.

(** *** [NaN] through the leg callback

    For any JavaScript numbers as dimensions and pose, the infinities and
    [NaN] included: a [NaN] met by an arithmetic operation, by [Math.max],
    [Math.min], [Math.cos], [Math.sin] or [Math.acos] gives [NaN]. *)

Lemma jadd_NaN_r (a : jsnum) : jadd a NaN = NaN.
Proof. destruct a; reflexivity. Qed.

Lemma jmul_NaN_r (a : jsnum) : jmul a NaN = NaN.
Proof. destruct a; reflexivity. Qed.

Lemma js_clamp_NaN : clamp NaN = NaN.
Proof. reflexivity. Qed.

Lemma js_femurAngle_of_NaN (d : HexapodDimensions jsnum) (pose : BodyPose jsnum)
    (i : nat) :
  leg_cosBeta d pose i = NaN -> leg_femurAngle d pose i = NaN.
Proof.
  intros H. unfold leg_femurAngle. rewrite H, js_clamp_NaN.
  cbn [nadd nacos js_number jacos]. apply jadd_NaN_r.
Qed.

Lemma js_p2_of_NaN (d : HexapodDimensions jsnum) (pose : BodyPose jsnum)
    (i : nat) :
  leg_femurAngle d pose i = NaN -> leg_p2 d pose i = nan_point.
Proof.
  intros H. unfold leg_p2. rewrite H.
  cbn [nadd nmul nsin ncos js_number jsin jcos].
  rewrite !jmul_NaN_r, jadd_NaN_r. reflexivity.
Qed.

Lemma js_toWorld_of_NaN (d : HexapodDimensions jsnum) (pose : BodyPose jsnum)
    (i : nat) :
  leg_toWorld d pose i nan_point = nan_point.
Proof. reflexivity. Qed.

Lemma js_cosBeta_folded :
  leg_cosBeta (fin_dims FOLDED_DIMENSIONS) (fin_pose FOLDED_POSE) 0 = NaN.
Proof.
  rewrite js_leg_cosBeta_c0 by apply c_folded.
  unfold inf_of_sign. cbn [femur tibia FOLDED_DIMENSIONS].
  repeat (destruct (Rlt_dec _ _); try lra). reflexivity.
Qed.

(** ** The properties of the specification *)

(** C1.  In exact real arithmetic, at every pose and for each of the six
    legs, the world-space foot position of the result is that leg's fixed
    foot point, which is computed from the dimensions alone: the two are at
    distance zero, at the identity pose as at any other.  The foot is
    rebuilt from [reach] and [height], so this holds for unreachable targets
    too, and positive dimensions are not needed. *)
Theorem C1_foot_is_fixed_foot_point (d : HexapodDimensions R)
    (pose : BodyPose R) (i : nat) (leg : LegConfiguration R) :
  nth_error (legs (solveHexapodIK d pose)) i = Some leg ->
  foot (joints leg) = at_index (getFixedFootPoints d) i /\
  dist3 (foot (joints leg)) (at_index (getFixedFootPoints d) i) = 0.
Proof.
  intros Hleg.
  apply solve_legs_nth in Hleg as [Hi ->].
  rewrite legIK_eq. cbn [joints foot].
  rewrite foot_fixed.
  change (at_index (getFixedFootPoints d) i) with (leg_footWorld d i).
  split; [reflexivity | apply dist3_self].
Qed.

Lemma C1_witness :
  let leg := leg_of DEFAULT_DIMENSIONS identity_pose 0 in
  nth_error (legs (solveHexapodIK DEFAULT_DIMENSIONS identity_pose)) 0
    = Some leg /\
  foot (joints leg) = at_index (getFixedFootPoints DEFAULT_DIMENSIONS) 0 /\
  dist3 (foot (joints leg)) (at_index (getFixedFootPoints DEFAULT_DIMENSIONS) 0)
    = 0.
Proof.
  cbn zeta. split; [reflexivity|].
  apply (@C1_foot_is_fixed_foot_point DEFAULT_DIMENSIONS identity_pose 0);
    reflexivity.
Defined.

Section DoubleArithmetic.

Import PrimFloat.

(** C1, on doubles: no absolute tolerance holds for every positive dimension
    set.  With widths 100, coxa 1, femur [1e16] and tibia 3, at the identity
    pose, the foot of leg 0 misses its fixed foot point by 2, whatever the
    math library.  Doubles next to [1e16] are 2 apart:
    [legReach = 1 + 1e16 + 1.5] rounds to [1e16 + 2], so the fixed foot
    point is at [x = 100 + 1e16 + 2]; [reach = planarDist - coxa] is
    [(1e16 + 2) - 1], which rounds to [1e16], [p3_plane.h = coxa + reach]
    rounds to [1e16] again, and the foot comes out at [x = 1e16 + 100].
    Every call of the math library is at an argument where ECMA-262 fixes
    its value. *)
Lemma C1_counterexample :
  Double.positive_dims Double.LONG_FEMUR_DIMENSIONS /\
  (exists m : Double.MathLibrary, Double.conforming m) /\
  forall m : Double.MathLibrary, Double.conforming m ->
    exists leg : LegConfiguration float,
      nth_error
        (legs (@solveHexapodIK float (Double.double_number m)
                 Double.LONG_FEMUR_DIMENSIONS Double.identity_pose)) 0
        = Some leg /\
      @at_index float (Double.double_number m)
        (@getFixedFootPoints float (Double.double_number m)
           Double.LONG_FEMUR_DIMENSIONS) 0
        = {| x := 10000000000000102; y := 0; z := 0 |}%float /\
      foot (joints leg) = {| x := 10000000000000100; y := 0; z := 0 |}%float /\
      (1 / 1000000 <? 10000000000000102 - 10000000000000100)%float = true.
Proof.
  split; [exact positive_long_femur|].
  split; [exact conforming_inhabited|].
  intros m ecma.
  exists (@leg_of float (Double.double_number m)
            Double.LONG_FEMUR_DIMENSIONS Double.identity_pose 0).
  split; [apply double_leg0|].
  split; [exact (double_footWorld ecma)|].
  split; [exact (double_foot ecma) | reflexivity].
Qed.

End DoubleArithmetic.

(** C2.  For every pose and every point, the forward transform (rotate about
    X by rx, then about Y by ry, then about Z by rz, then add the
    translation) and the inverse transform (subtract the translation, then
    rotate about Z by -rz, about Y by -ry, about X by -rx) undo each other,
    in either order. *)
Theorem C2_transforms_are_inverse (pose : BodyPose R) (p : Point3D R) :
  toWorld pose p =
    translate (rotateZ (rotateY (rotateX p (toRad (rx pose))) (toRad (ry pose)))
                       (toRad (rz pose)))
              (translation pose) /\
  fLocal pose p =
    rotateX (rotateY (rotateZ (untranslate p (translation pose))
                              (- toRad (rz pose)))
                     (- toRad (ry pose)))
            (- toRad (rx pose)) /\
  toWorld pose (fLocal pose p) = p /\
  fLocal pose (toWorld pose p) = p.
Proof.
  repeat split.
  - apply toWorld_fLocal.
  - apply fLocal_toWorld.
Qed.

(** C3.  The femur angle can be [NaN].  With femur and tibia both 60, coxa
    50, widths 100 and the body moved by [tx = 90], the foot of leg 0 is at
    the end of its coxa: [reach], [height] and [c] are zero, [cosBeta] is
    [0 / 0], and [Math.max(-1, Math.min(1, NaN))] is [NaN], so the clamp
    does not protect [Math.acos].  The tibia angle of the same leg is an
    ordinary number. *)
Theorem C3_femur_angle_NaN :
  exists leg : LegConfiguration jsnum,
    nth_error (legs (solveHexapodIK (fin_dims FOLDED_DIMENSIONS)
                                    (fin_pose FOLDED_POSE))) 0 = Some leg /\
    leg_cosBeta (fin_dims FOLDED_DIMENSIONS) (fin_pose FOLDED_POSE) 0 = NaN /\
    femurAngle leg = NaN /\
    finite (tibiaAngle leg).
Proof.
  exists (leg_of (fin_dims FOLDED_DIMENSIONS) (fin_pose FOLDED_POSE) 0).
  split; [reflexivity|].
  unfold leg_of. rewrite legIK_eq. cbn [femurAngle tibiaAngle].
  split; [|split].
  - rewrite js_leg_cosBeta_c0 by apply c_folded.
    unfold inf_of_sign. cbn [femur tibia FOLDED_DIMENSIONS].
    repeat (destruct (Rlt_dec _ _); try lra). reflexivity.
  - rewrite js_leg_femurAngle_NaN; [reflexivity | apply c_folded | reflexivity].
  - rewrite js_leg_gammaTri by apply positive_folded.
    rewrite js_toDeg. eexists; reflexivity.
Qed.

(** C4.  For positive dimensions and each leg, the fixed foot point lies on
    the ground ([z = 0]), in the direction of the leg's mount angle
    [atan2(hip.y, hip.x)], at the distance of the hip from the body center
    plus [coxa + femur + 0.5 * tibia]; [getFixedFootPoints] reads the
    dimensions only, and the foot of the result is this point at every
    pose. *)
Theorem C4_fixed_foot_point (d : HexapodDimensions R) (i : nat) :
  positive_dims d -> (i < 6)%nat ->
  let hip := at_index (getLocalBodyPoints d) i in
  let footWorld := at_index (getFixedFootPoints d) i in
  z footWorld = 0 /\
  dist3 footWorld origin
    = dist3 hip origin + (coxa d + femur d + 0.5 * tibia d) /\
  atan2 (y footWorld) (x footWorld) = atan2 (y hip) (x hip) /\
  (forall (pose : BodyPose R) (leg : LegConfiguration R),
      nth_error (legs (solveHexapodIK d pose)) i = Some leg ->
      foot (joints leg) = footWorld).
Proof.
  intros Hd Hi hip footWorld.
  change hip with (leg_hipLocal d i). change footWorld with (leg_footWorld d i).
  pose proof (hip_radius_pos Hd Hi) as Hr.
  pose proof (legReach_pos Hd) as HL.
  repeat split.
  - now apply foot_z.
  - rewrite !dist3_origin by first [apply hip_z | now apply foot_z].
    rewrite foot_radius by assumption. unfold legReach. real_ops. ring.
  - rewrite foot_of_hip by assumption. cbn [x y].
    destruct (hip_polar d i) as [Hx Hy].
    set (k := (radius (leg_hipLocal d i) + legReach d) / radius (leg_hipLocal d i)).
    assert (Hk : 0 < k).
    { unfold k. apply Rdiv_lt_0_compat; lra. }
    replace (sin (leg_mountAngle d i) * (radius (leg_hipLocal d i) + legReach d))
      with (k * y (leg_hipLocal d i)) by (rewrite <- Hy; unfold k; field; lra).
    replace (cos (leg_mountAngle d i) * (radius (leg_hipLocal d i) + legReach d))
      with (k * x (leg_hipLocal d i)) by (rewrite <- Hx; unfold k; field; lra).
    now apply atan2_scale.
  - intros pose leg Hleg. apply solve_legs_nth in Hleg as [_ ->].
    rewrite legIK_eq. cbn [joints foot]. apply foot_fixed.
Qed.

Lemma C4_witness :
  positive_dims DEFAULT_DIMENSIONS /\ (1 < 6)%nat /\
  z (at_index (getFixedFootPoints DEFAULT_DIMENSIONS) 1) = 0 /\
  dist3 (at_index (getFixedFootPoints DEFAULT_DIMENSIONS) 1) origin
    = dist3 (at_index (getLocalBodyPoints DEFAULT_DIMENSIONS) 1) origin
      + (coxa DEFAULT_DIMENSIONS + femur DEFAULT_DIMENSIONS
         + 0.5 * tibia DEFAULT_DIMENSIONS).
Proof.
  assert (Hd : positive_dims DEFAULT_DIMENSIONS)
    by (unfold positive_dims; cbn; lra).
  assert (Hi : (1 < 6)%nat) by lia.
  split; [exact Hd|]. split; [exact Hi|].
  destruct (@C4_fixed_foot_point DEFAULT_DIMENSIONS 1 Hd Hi) as (Hz & Hr & _).
  split; [exact Hz | exact Hr].
Defined.

(** C5.  For positive dimensions, every pose and each leg, the tibia angle
    of the result is, in degrees, the inverse cosine of the clamped
    law-of-cosines quotient [(femur^2 + tibia^2 - c^2) / (2 femur tibia)],
    where [c = sqrt(reach^2 + height^2)] is the distance from the femur
    pivot (the coxa's end) to the foot; it lies between 0 and 180.  When the
    foot can be reached, the knee is one femur from the pivot and one tibia
    from the foot, and the tibia angle is the angle at the knee between the
    two segments.  On JavaScript numbers the tibia angle is the same number:
    the divisor [2 femur tibia] is not zero. *)
Theorem C5_tibia_angle (d : HexapodDimensions R) (pose : BodyPose R)
    (i : nat) (leg : LegConfiguration R) (leg_js : LegConfiguration jsnum) :
  positive_dims d ->
  nth_error (legs (solveHexapodIK d pose)) i = Some leg ->
  nth_error (legs (solveHexapodIK (fin_dims d) (fin_pose pose))) i
    = Some leg_js ->
  let pivot := coxaJoint (joints leg) in
  let knee := femurJoint (joints leg) in
  let c := dist3 pivot (foot (joints leg)) in
  c = sqrt (leg_reach d pose i * leg_reach d pose i
            + leg_height d pose i * leg_height d pose i) /\
  tibiaAngle leg
    = acos (Rmax (-1) (Rmin 1 ((femur d * femur d + tibia d * tibia d - c * c)
                               / (2 * femur d * tibia d))))
      * 180 / PI /\
  0 <= tibiaAngle leg <= 180 /\
  (reachable d c ->
     dist3 knee pivot = femur d /\
     dist3 knee (foot (joints leg)) = tibia d /\
     dot_at knee pivot (foot (joints leg))
     = femur d * tibia d * cos (toRad (tibiaAngle leg))) /\
  tibiaAngle leg_js = Fin (tibiaAngle leg).
Proof.
  intros Hd Hleg Hjs.
  apply solve_legs_nth in Hleg as [Hi ->].
  apply solve_legs_nth in Hjs as [_ ->].
  rewrite js_tibiaAngle by assumption.
  rewrite legIK_eq. cbn [joints coxaJoint femurJoint foot tibiaAngle].
  rewrite c_is_distance. cbn zeta.
  split; [reflexivity|]. split; [reflexivity|].
  split; [|split; [|reflexivity]].
  - pose proof (acos_bound (clamp (leg_cosGamma d pose i))) as [Hlo Hhi].
    change (leg_gammaTri d pose i) with (acos (clamp (leg_cosGamma d pose i))).
    split.
    + rewrite <- toDeg_0. now apply toDeg_monotone.
    + rewrite <- toDeg_PI. now apply toDeg_monotone.
  - intros Hreach. split; [|split].
    + rewrite dist3_sym. apply femur_segment_length.
      destruct Hd as (_ & _ & _ & _ & Hf & _). lra.
    + now apply tibia_segment_length.
    + rewrite toRad_toDeg. now apply knee_angle.
Qed.

Lemma C5_witness :
  let leg := leg_of DEFAULT_DIMENSIONS DEFAULT_POSE 2 in
  let leg_js := leg_of (fin_dims DEFAULT_DIMENSIONS) (fin_pose DEFAULT_POSE) 2 in
  positive_dims DEFAULT_DIMENSIONS /\
  nth_error (legs (solveHexapodIK DEFAULT_DIMENSIONS DEFAULT_POSE)) 2
    = Some leg /\
  nth_error (legs (solveHexapodIK (fin_dims DEFAULT_DIMENSIONS)
                                  (fin_pose DEFAULT_POSE))) 2
    = Some leg_js /\
  0 <= tibiaAngle leg <= 180 /\
  tibiaAngle leg_js = Fin (tibiaAngle leg).
Proof.
  cbn zeta.
  assert (Hd : positive_dims DEFAULT_DIMENSIONS)
    by (unfold positive_dims; cbn; lra).
  split; [exact Hd|]. split; [reflexivity|]. split; [reflexivity|].
  destruct (@C5_tibia_angle DEFAULT_DIMENSIONS DEFAULT_POSE 2
              (leg_of DEFAULT_DIMENSIONS DEFAULT_POSE 2)
              (leg_of (fin_dims DEFAULT_DIMENSIONS) (fin_pose DEFAULT_POSE) 2)
              Hd eq_refl eq_refl) as (_ & _ & Hb & _ & Hjs).
  split; [exact Hb | exact Hjs].
Defined.

(** C6, as stated, fails: with all three widths equal (the default
    dimensions, 100 each) the feet of leg 0 and of leg 1 are more than 41
    apart in distance from the body center. *)
Lemma C6_counterexample :
  front DEFAULT_DIMENSIONS = side DEFAULT_DIMENSIONS /\
  side DEFAULT_DIMENSIONS = middle DEFAULT_DIMENSIONS /\
  0 < middle DEFAULT_DIMENSIONS /\
  ~ feet_on_one_circle DEFAULT_DIMENSIONS 41.
Proof.
  repeat split; try (cbn; lra).
  intros Hcircle.
  specialize (Hcircle 0%nat 1%nat ltac:(lia) ltac:(lia)).
  change (at_index (getFixedFootPoints DEFAULT_DIMENSIONS) 0)
    with (leg_footWorld DEFAULT_DIMENSIONS 0) in Hcircle.
  change (at_index (getFixedFootPoints DEFAULT_DIMENSIONS) 1)
    with (leg_footWorld DEFAULT_DIMENSIONS 1) in Hcircle.
  rewrite !dist3_origin in Hcircle by (apply foot_z; lia).
  rewrite !foot_radius in Hcircle by first [apply positive_default | lia].
  unfold radius in Hcircle. cbn [x y leg_hipLocal at_index nth getLocalBodyPoints
    DEFAULT_DIMENSIONS front side middle] in Hcircle.
  real_ops.
  replace (100 * 100 + 0 * 0) with (100 * 100) in Hcircle by ring.
  rewrite sqrt_square in Hcircle by lra.
  assert (Hs : 141 < sqrt (100 * 100 + - (100) * - (100))).
  { rewrite <- (sqrt_square 141) by lra. apply sqrt_lt_1_alt. lra. }
  rewrite Rabs_left in Hcircle; lra.
Qed.

(** C6, amended.  With the three widths equal to [w > 0], the fixed foot
    points lie on two circles about the body center, on the ground: the feet
    of the two middle legs (0 and 3) at radius [w + coxa + femur + 0.5 tibia],
    those of the four corner legs (1, 2, 4 and 5) at radius
    [sqrt 2 * w + coxa + femur + 0.5 tibia]. *)
Theorem C6_feet_on_two_circles (d : HexapodDimensions R) (i : nat) :
  positive_dims d -> front d = side d -> side d = middle d -> (i < 6)%nat ->
  dist3 (at_index (getFixedFootPoints d) i) origin =
  (if orb (i =? 0)%nat (i =? 3)%nat then middle d else sqrt 2 * middle d)
  + (coxa d + femur d + 0.5 * tibia d).
Proof.
  intros Hd Hfs Hsm Hi.
  change (at_index (getFixedFootPoints d) i) with (leg_footWorld d i).
  rewrite dist3_origin by now apply foot_z.
  rewrite foot_radius by assumption.
  replace (legReach d) with (coxa d + femur d + 0.5 * tibia d)
    by (unfold legReach; real_ops; ring).
  f_equal.
  destruct Hd as (_ & _ & Hm & _).
  assert (Hmid : sqrt (middle d * middle d + 0 * 0) = middle d).
  { replace (middle d * middle d + 0 * 0) with (middle d * middle d) by ring.
    apply sqrt_square. lra. }
  assert (Hcorner : forall a b : R, a * a = middle d * middle d ->
             b * b = middle d * middle d ->
             sqrt (a * a + b * b) = sqrt 2 * middle d).
  { intros a b -> ->.
    replace (middle d * middle d + middle d * middle d)
      with (2 * (middle d * middle d)) by ring.
    rewrite sqrt_mult_alt by lra. rewrite sqrt_square by lra. reflexivity. }
  unfold radius.
  do 6 (destruct i as [|i];
        [cbn [x y leg_hipLocal at_index nth getLocalBodyPoints Nat.eqb orb];
         real_ops;
         first [ exact Hmid
               | replace (- middle d * - middle d + 0 * 0)
                   with (middle d * middle d + 0 * 0) by ring; exact Hmid
               | apply Hcorner; rewrite ?Hfs, ?Hsm; ring ] | ]).
  lia.
Qed.

Lemma C6_witness :
  positive_dims DEFAULT_DIMENSIONS /\
  front DEFAULT_DIMENSIONS = side DEFAULT_DIMENSIONS /\
  side DEFAULT_DIMENSIONS = middle DEFAULT_DIMENSIONS /\
  (1 < 6)%nat /\
  dist3 (at_index (getFixedFootPoints DEFAULT_DIMENSIONS) 1) origin
  = sqrt 2 * middle DEFAULT_DIMENSIONS
    + (coxa DEFAULT_DIMENSIONS + femur DEFAULT_DIMENSIONS
       + 0.5 * tibia DEFAULT_DIMENSIONS).
Proof.
  assert (Hd : positive_dims DEFAULT_DIMENSIONS)
    by (unfold positive_dims; cbn; lra).
  assert (Hi : (1 < 6)%nat) by lia.
  split; [exact Hd|]. split; [reflexivity|]. split; [reflexivity|].
  split; [exact Hi|].
  exact (@C6_feet_on_two_circles DEFAULT_DIMENSIONS 1 Hd eq_refl eq_refl Hi).
Defined.

(** C7.  For positive dimensions and a fixed leg, with the pose the identity
    except for [tz], raising [tz] from 0 strictly increases the deviation of
    the leg's femur angle from its value at the identity pose: for
    [0 <= t1 < t2] the deviation at [t2] exceeds the one at [t1].  This
    holds on the whole half-line, and so up to [coxa + femur + tibia].  At
    these poses the hypotenuse is never zero, and the legs computed on
    JavaScript numbers are the real ones. *)
Theorem C7_femur_deviation_grows (d : HexapodDimensions R) (i : nat)
    (t1 t2 : R) (leg0 leg1 leg2 : LegConfiguration R) :
  positive_dims d ->
  0 <= t1 -> t1 < t2 -> t2 <= coxa d + femur d + tibia d ->
  nth_error (legs (solveHexapodIK d identity_pose)) i = Some leg0 ->
  nth_error (legs (solveHexapodIK d (height_pose t1))) i = Some leg1 ->
  nth_error (legs (solveHexapodIK d (height_pose t2))) i = Some leg2 ->
  Rabs (femurAngle leg1 - femurAngle leg0)
  < Rabs (femurAngle leg2 - femurAngle leg0) /\
  (forall t : R,
     legs (solveHexapodIK (fin_dims d) (fin_pose (height_pose t)))
     = map fin_leg (legs (solveHexapodIK d (height_pose t)))).
Proof.
  intros Hd H1 H12 _ Hleg0 Hleg1 Hleg2.
  split; [|intros t; now apply js_legs_height_pose].
  apply solve_legs_nth in Hleg0 as [Hi ->].
  apply solve_legs_nth in Hleg1 as [_ ->].
  apply solve_legs_nth in Hleg2 as [_ ->].
  rewrite !legIK_eq. cbn [femurAngle].
  change identity_pose with (height_pose 0).
  assert (H21 : toDeg (leg_femurAngle d (height_pose t2) i)
                < toDeg (leg_femurAngle d (height_pose t1) i)).
  { apply toDeg_increasing. now apply femurAngle_height_decreasing. }
  assert (H10 : toDeg (leg_femurAngle d (height_pose t1) i)
                <= toDeg (leg_femurAngle d (height_pose 0) i)).
  { destruct H1 as [H1 | <-]; [|right; reflexivity].
    left. apply toDeg_increasing. apply femurAngle_height_decreasing; trivial; lra. }
  rewrite !Rabs_left1 by lra. lra.
Qed.

Lemma C7_witness :
  let leg0 := leg_of DEFAULT_DIMENSIONS identity_pose 0 in
  let leg1 := leg_of DEFAULT_DIMENSIONS (height_pose 10) 0 in
  let leg2 := leg_of DEFAULT_DIMENSIONS (height_pose 80) 0 in
  positive_dims DEFAULT_DIMENSIONS /\
  0 <= 10 /\ 10 < 80 /\
  80 <= coxa DEFAULT_DIMENSIONS + femur DEFAULT_DIMENSIONS
        + tibia DEFAULT_DIMENSIONS /\
  nth_error (legs (solveHexapodIK DEFAULT_DIMENSIONS identity_pose)) 0
    = Some leg0 /\
  nth_error (legs (solveHexapodIK DEFAULT_DIMENSIONS (height_pose 10))) 0
    = Some leg1 /\
  nth_error (legs (solveHexapodIK DEFAULT_DIMENSIONS (height_pose 80))) 0
    = Some leg2 /\
  Rabs (femurAngle leg1 - femurAngle leg0)
  < Rabs (femurAngle leg2 - femurAngle leg0).
Proof.
  cbn zeta.
  assert (Hd : positive_dims DEFAULT_DIMENSIONS)
    by (unfold positive_dims; cbn; lra).
  assert (H0 : 0 <= 10) by lra.
  assert (H1 : 10 < 80) by lra.
  assert (H2 : 80 <= coxa DEFAULT_DIMENSIONS + femur DEFAULT_DIMENSIONS
                     + tibia DEFAULT_DIMENSIONS) by (cbn; lra).
  split; [exact Hd|]. split; [exact H0|]. split; [exact H1|].
  split; [exact H2|].
  split; [reflexivity|]. split; [reflexivity|]. split; [reflexivity|].
  exact (proj1 (@C7_femur_deviation_grows DEFAULT_DIMENSIONS 0 10 80
                  (leg_of DEFAULT_DIMENSIONS identity_pose 0)
                  (leg_of DEFAULT_DIMENSIONS (height_pose 10) 0)
                  (leg_of DEFAULT_DIMENSIONS (height_pose 80) 0)
                  Hd H0 H1 H2 eq_refl eq_refl eq_refl)).
Defined.

(** C8.  For the default dimensions (widths 100, coxa 50, femur 100, tibia
    120) and the pose that is the identity except for [tz = 80], the solver
    returns six legs and six body corners; every leg has its foot on the
    ground ([z = 0]) and its femur and tibia angles within [-180, 180]
    degrees.  The legs and corners computed on JavaScript numbers are these
    real ones. *)
Theorem C8_default_scenario :
  let cfg := solveHexapodIK DEFAULT_DIMENSIONS DEFAULT_POSE in
  let cfg_js :=
    solveHexapodIK (fin_dims DEFAULT_DIMENSIONS) (fin_pose DEFAULT_POSE) in
  length (legs cfg) = 6%nat /\
  length (bodyCorners cfg) = 6%nat /\
  legs cfg_js = map fin_leg (legs cfg) /\
  bodyCorners cfg_js = map fin_point (bodyCorners cfg) /\
  forall leg : LegConfiguration R, In leg (legs cfg) ->
    z (foot (joints leg)) = 0 /\
    -180 <= femurAngle leg <= 180 /\
    -180 <= tibiaAngle leg <= 180.
Proof.
  cbn zeta. pose proof positive_default as Hd.
  split; [reflexivity|]. split; [reflexivity|].
  split; [apply (js_legs_height_pose 80 Hd)|].
  split; [apply js_solveHexapodIK_bodyCorners|].
  intros leg Hin. apply In_nth_error in Hin as [i Hleg].
  apply solve_legs_nth in Hleg as [Hi ->].
  rewrite legIK_eq. cbn [joints foot femurAngle tibiaAngle].
  split; [|split].
  - rewrite foot_fixed. now apply foot_z.
  - change DEFAULT_POSE with (height_pose 80).
    rewrite femurAngle_height_pose by assumption.
    pose proof (rest_reach_pos Hd) as Hr.
    match goal with |- context [atan ?u + acos ?v] =>
      pose proof (atan_bound u) as [Hlo _];
      pose proof (acos_bound v) as [Hb0 Hb1];
      assert (Hup : atan u < 0)
    end.
    { rewrite <- atan_0. apply atan_increasing.
      unfold Rdiv. assert (0 < / rest_reach DEFAULT_DIMENSIONS)
        by now apply Rinv_0_lt_compat.
      nra. }
    pose proof PI_RGT_0.
    apply toDeg_bound. lra.
  - pose proof (acos_bound (clamp (leg_cosGamma DEFAULT_DIMENSIONS DEFAULT_POSE i)))
      as [Hlo Hhi].
    change (leg_gammaTri DEFAULT_DIMENSIONS DEFAULT_POSE i)
      with (acos (clamp (leg_cosGamma DEFAULT_DIMENSIONS DEFAULT_POSE i))).
    pose proof PI_RGT_0.
    apply toDeg_bound. lra.
Qed.

Lemma C8_witness :
  let leg := leg_of DEFAULT_DIMENSIONS DEFAULT_POSE 0 in
  In leg (legs (solveHexapodIK DEFAULT_DIMENSIONS DEFAULT_POSE)) /\
  z (foot (joints leg)) = 0 /\
  -180 <= femurAngle leg <= 180 /\
  -180 <= tibiaAngle leg <= 180.
Proof.
  cbn zeta.
  assert (Hin : In (leg_of DEFAULT_DIMENSIONS DEFAULT_POSE 0)
                   (legs (solveHexapodIK DEFAULT_DIMENSIONS DEFAULT_POSE)))
    by (left; reflexivity).
  split; [exact Hin|].
  exact (proj2 (proj2 (proj2 (proj2 C8_default_scenario))) _ Hin).
Defined.

(** C9.  For every dimensions the geometry builder returns six local hip
    points, all in the body's XY plane ([z = 0]), placed symmetrically about
    the origin: the point of leg [k + 3] is the opposite of the point of leg
    [k].  For positive widths they come in the order middle-right,
    front-right, front-left, middle-left, back-left, back-right. *)
Theorem C9_local_hip_points (d : HexapodDimensions R) :
  let pts := getLocalBodyPoints d in
  length pts = 6%nat /\
  (forall p : Point3D R, In p pts -> z p = 0) /\
  (forall k : nat, (k < 3)%nat ->
     at_index pts (k + 3) = opposite (at_index pts k)) /\
  (0 < front d -> 0 < side d -> 0 < middle d ->
     (is_middle (at_index pts 0) /\ is_right (at_index pts 0)) /\
     (is_front (at_index pts 1) /\ is_right (at_index pts 1)) /\
     (is_front (at_index pts 2) /\ is_left (at_index pts 2)) /\
     (is_middle (at_index pts 3) /\ is_left (at_index pts 3)) /\
     (is_back (at_index pts 4) /\ is_left (at_index pts 4)) /\
     (is_back (at_index pts 5) /\ is_right (at_index pts 5))).
Proof.
  cbn zeta. split; [reflexivity|]. split; [|split].
  - intros p Hin. cbn in Hin.
    repeat (destruct Hin as [<- | Hin]; [reflexivity|]). contradiction.
  - intros k Hk.
    do 3 (destruct k as [|k];
          [apply point3D_eq; cbn; real_ops; ring|]).
    lia.
  - intros Hf Hs Hm.
    unfold is_middle, is_right, is_left, is_front, is_back.
    cbn [at_index nth getLocalBodyPoints x y]. real_ops.
    repeat split; lra.
Qed.

Lemma C9_witness :
  0 < front DEFAULT_DIMENSIONS /\ 0 < side DEFAULT_DIMENSIONS /\
  0 < middle DEFAULT_DIMENSIONS /\
  is_front (at_index (getLocalBodyPoints DEFAULT_DIMENSIONS) 1) /\
  is_right (at_index (getLocalBodyPoints DEFAULT_DIMENSIONS) 1).
Proof.
  assert (Hf : 0 < front DEFAULT_DIMENSIONS) by (cbn; lra).
  assert (Hs : 0 < side DEFAULT_DIMENSIONS) by (cbn; lra).
  assert (Hm : 0 < middle DEFAULT_DIMENSIONS) by (cbn; lra).
  split; [exact Hf|]. split; [exact Hs|]. split; [exact Hm|].
  exact (proj1 (proj2 (proj2 (proj2 (proj2
           (C9_local_hip_points DEFAULT_DIMENSIONS))) Hf Hs Hm))).
Defined.

(** C10.  The femur joint can have no position.  At the input of C3 the
    femur angle of leg 0 is [NaN], and with it the three coordinates of
    [joints.femur]: its distance to [joints.coxa] is not the femur length.
    The body contact point and [joints.coxa] are ordinary points, at the
    coxa length from each other. *)
Theorem C10_femur_joint_NaN :
  exists leg : LegConfiguration jsnum,
    nth_error (legs (solveHexapodIK (fin_dims FOLDED_DIMENSIONS)
                                    (fin_pose FOLDED_POSE))) 0 = Some leg /\
    femurJoint (joints leg) = nan_point /\
    exists p q : Point3D R,
      bodyContact (joints leg) = fin_point p /\
      coxaJoint (joints leg) = fin_point q /\
      dist3 p q = coxa FOLDED_DIMENSIONS.
Proof.
  exists (leg_of (fin_dims FOLDED_DIMENSIONS) (fin_pose FOLDED_POSE) 0).
  split; [reflexivity|].
  unfold leg_of. rewrite legIK_eq. cbn [joints femurJoint bodyContact coxaJoint].
  split.
  - rewrite js_leg_p2_NaN; [apply js_leg_toWorld_NaN | apply c_folded | reflexivity].
  - exists (toWorld FOLDED_POSE (leg_hipLocal FOLDED_DIMENSIONS 0)),
           (leg_toWorld FOLDED_DIMENSIONS FOLDED_POSE 0
              (leg_p1 FOLDED_DIMENSIONS FOLDED_POSE 0)).
    split; [|split].
    + rewrite js_leg_hipLocal, js_toWorld. reflexivity.
    + rewrite js_leg_p1, js_leg_toWorld. reflexivity.
    + apply coxa_segment_length. cbn. lra.
Qed.

(** ** Further properties of the solver *)

(** X1.  In exact real arithmetic, for positive dimensions and any pose,
    the angles reported for a leg are in fixed ranges: the coxa angle in
    [-180, 180], the tibia angle in [0, 180] and, where the foot is not at
    the end of the coxa ([c] not zero), the femur angle in [-180, 360]. *)
Theorem X1_angle_ranges (d : HexapodDimensions R) (pose : BodyPose R)
    (i : nat) (leg : LegConfiguration R) :
  positive_dims d ->
  nth_error (legs (solveHexapodIK d pose)) i = Some leg ->
  -180 <= coxaAngle leg <= 180 /\
  0 <= tibiaAngle leg <= 180 /\
  (dist3 (coxaJoint (joints leg)) (foot (joints leg)) <> 0 ->
   -180 <= femurAngle leg <= 360).
Proof.
  intros Hd Hleg. apply solve_legs_nth in Hleg as [Hi ->].
  rewrite legIK_eq. cbn [coxaAngle tibiaAngle femurAngle].
  split; [|split].
  - pose proof (coxaAngle_bound d pose i). lra.
  - apply gammaTri_bound.
  - intros _. unfold leg_femurAngle. real_ops.
    pose proof (femur_sum_bound (clamp (leg_cosBeta d pose i))
                  (atan2_bound (leg_reach d pose i) (leg_height d pose i))).
    lra.
Qed.

Lemma X1_witness :
  positive_dims DEFAULT_DIMENSIONS /\
  nth_error (legs (solveHexapodIK DEFAULT_DIMENSIONS DEFAULT_POSE)) 4
    = Some (leg_of DEFAULT_DIMENSIONS DEFAULT_POSE 4) /\
  -180 <= coxaAngle (leg_of DEFAULT_DIMENSIONS DEFAULT_POSE 4) <= 180.
Proof.
  split; [exact positive_default|]. split; [reflexivity|].
  exact (proj1 (@X1_angle_ranges DEFAULT_DIMENSIONS DEFAULT_POSE 4
                  (leg_of DEFAULT_DIMENSIONS DEFAULT_POSE 4)
                  positive_default eq_refl)).
Defined.

(** X2.  A [NaN] passes the clamp.  [Math.max(-1, Math.min(1, NaN))] is
    [NaN], while the infinities are clamped to 1 and -1.  So for any
    JavaScript numbers as dimensions and pose, whenever [cosBeta] is [NaN]
    the reported femur angle is [NaN] and so are the three coordinates of
    the femur joint. *)
Theorem X2_nan_passes_clamp (d : HexapodDimensions jsnum)
    (pose : BodyPose jsnum) (i : nat) (leg : LegConfiguration jsnum) :
  nth_error (legs (solveHexapodIK d pose)) i = Some leg ->
  leg_cosBeta d pose i = NaN ->
  clamp NaN = NaN /\ clamp PInf = Fin 1 /\ clamp NInf = Fin (-1) /\
  femurAngle leg = NaN /\
  femurJoint (joints leg) = nan_point.
Proof.
  intros Hleg Hcos. apply solve_legs_nth in Hleg as [Hi ->].
  rewrite legIK_eq. cbn [femurAngle joints femurJoint].
  pose proof (js_femurAngle_of_NaN d pose i Hcos) as Hf.
  rewrite (js_p2_of_NaN d pose i Hf), Hf, js_toWorld_of_NaN.
  repeat split; [apply js_clamp_PInf].
Qed.

Lemma X2_witness :
  nth_error (legs (solveHexapodIK (fin_dims FOLDED_DIMENSIONS)
                                  (fin_pose FOLDED_POSE))) 0
    = Some (leg_of (fin_dims FOLDED_DIMENSIONS) (fin_pose FOLDED_POSE) 0) /\
  leg_cosBeta (fin_dims FOLDED_DIMENSIONS) (fin_pose FOLDED_POSE) 0 = NaN /\
  femurJoint (joints (leg_of (fin_dims FOLDED_DIMENSIONS)
                             (fin_pose FOLDED_POSE) 0)) = nan_point.
Proof.
  split; [reflexivity|]. split; [exact js_cosBeta_folded|].
  exact (proj2 (proj2 (proj2 (proj2
    (@X2_nan_passes_clamp (fin_dims FOLDED_DIMENSIONS) (fin_pose FOLDED_POSE) 0
       (leg_of (fin_dims FOLDED_DIMENSIONS) (fin_pose FOLDED_POSE) 0)
       eq_refl js_cosBeta_folded))))).
Defined.

Section DegreesOnDoubles.

Import PrimFloat.

(** X3.  Degrees and radians.  In exact real arithmetic [toDeg] and [toRad]
    undo each other and 180 degrees are [PI] radians; [NaN] and the
    infinities pass through both.  On doubles they do not undo each other:
    [toDeg(toRad(30))] is the double just below 30. *)
Theorem X3_degrees_round_trip :
  (forall r : R, toDeg (toRad r) = r /\ toRad (toDeg r) = r) /\
  toRad 180 = PI /\
  (toRad NaN = NaN /\ toDeg NaN = NaN /\
   toRad PInf = PInf /\ toDeg PInf = PInf /\
   toRad NInf = NInf /\ toDeg NInf = NInf) /\
  (forall m : Double.MathLibrary,
     @toDeg _ (Double.double_number m)
       (@toRad _ (Double.double_number m) 30%float)
     = next_down 30%float).
Proof.
  split; [|split; [|split]].
  - intros r. split; [apply toDeg_toRad | apply toRad_toDeg].
  - unfold toRad, MathPI. real_ops. field.
  - rewrite js_toRad_PInf, js_toDeg_PInf, js_toRad_NInf, js_toDeg_NInf.
    repeat split.
  - intros m. apply double_toDeg_toRad_30.
Qed.

End DegreesOnDoubles.

(** X4.  Rotations about one axis compose by adding their angles, the
    rotation by zero is the identity, and a rotation keeps the distance
    between two points. *)
Theorem X4_rotations_compose (p q : Point3D R) (a b : R) :
  rotateX (rotateX p a) b = rotateX p (a + b) /\
  rotateY (rotateY p a) b = rotateY p (a + b) /\
  rotateZ (rotateZ p a) b = rotateZ p (a + b) /\
  (rotateX p 0 = p /\ rotateY p 0 = p /\ rotateZ p 0 = p) /\
  (dist3 (rotateX p a) (rotateX q a) = dist3 p q /\
   dist3 (rotateY p a) (rotateY q a) = dist3 p q /\
   dist3 (rotateZ p a) (rotateZ q a) = dist3 p q).
Proof.
  split; [rot_compose|]. split; [rot_compose|]. split; [rot_compose|].
  split.
  - split; [apply rotateX_0 | split; [apply rotateY_0 | apply rotateZ_0]].
  - split; [apply dist3_rotateX
           | split; [apply dist3_rotateY | apply dist3_rotateZ]].
Qed.

(** X5.  For positive dimensions the stance is symmetric about the body
    center: the fixed foot point of leg [k + 3] is the opposite of the one of
    leg [k]; and each fixed foot point is its hip pushed outwards, along the
    line from the center through the hip, by [coxa + femur + 0.5 * tibia]. *)
Theorem X5_feet_symmetric (d : HexapodDimensions R) (k : nat) :
  positive_dims d -> (k < 3)%nat ->
  at_index (getFixedFootPoints d) (k + 3)
  = opposite (at_index (getFixedFootPoints d) k) /\
  (forall i : nat, (i < 6)%nat ->
     let hip := at_index (getLocalBodyPoints d) i in
     let footWorld := at_index (getFixedFootPoints d) i in
     let s := (radius hip + (coxa d + femur d + 0.5 * tibia d)) / radius hip in
     1 < s /\ x footWorld = s * x hip /\ y footWorld = s * y hip /\
     dist3 hip footWorld = coxa d + femur d + 0.5 * tibia d).
Proof.
  intros Hd Hk. pose proof (legReach_pos Hd) as HL.
  assert (HLeq : legReach d = coxa d + femur d + 0.5 * tibia d)
    by (unfold legReach; real_ops; ring).
  split.
  - change (at_index (getFixedFootPoints d) (k + 3))
      with (leg_footWorld d (k + 3)).
    change (at_index (getFixedFootPoints d) k) with (leg_footWorld d k).
    rewrite !foot_scaled by (assumption || lia). cbn zeta.
    rewrite hip_opposite, radius_opposite by assumption.
    apply point3D_eq; cbn [x y z opposite]; ring.
  - intros i Hi. cbn zeta.
    change (at_index (getLocalBodyPoints d) i) with (leg_hipLocal d i).
    change (at_index (getFixedFootPoints d) i) with (leg_footWorld d i).
    pose proof (hip_radius_pos Hd Hi) as Hr.
    rewrite (foot_scaled Hd Hi). cbn zeta. cbn [x y z]. rewrite <- HLeq.
    set (r := radius (leg_hipLocal d i)) in *.
    assert (Hs : (r + legReach d) / r = 1 + legReach d / r) by (field; lra).
    assert (Hq : 0 < legReach d / r) by (apply Rdiv_lt_0_compat; lra).
    split; [lra|]. split; [reflexivity|]. split; [reflexivity|].
    unfold dist3. cbn [x y z]. rewrite hip_z.
    replace ((x (leg_hipLocal d i) - (r + legReach d) / r * x (leg_hipLocal d i))
             * (x (leg_hipLocal d i) - (r + legReach d) / r * x (leg_hipLocal d i))
             + (y (leg_hipLocal d i) - (r + legReach d) / r * y (leg_hipLocal d i))
               * (y (leg_hipLocal d i) - (r + legReach d) / r * y (leg_hipLocal d i))
             + (0 - 0) * (0 - 0))
      with ((legReach d / r) * (legReach d / r)
            * (x (leg_hipLocal d i) * x (leg_hipLocal d i)
               + y (leg_hipLocal d i) * y (leg_hipLocal d i)))
      by (field; lra).
    rewrite sqrt_mult_alt by nra.
    rewrite sqrt_square by lra.
    change (sqrt (x (leg_hipLocal d i) * x (leg_hipLocal d i)
                  + y (leg_hipLocal d i) * y (leg_hipLocal d i))) with r.
    field. lra.
Qed.

Lemma X5_witness :
  positive_dims DEFAULT_DIMENSIONS /\ (1 < 3)%nat /\
  at_index (getFixedFootPoints DEFAULT_DIMENSIONS) (1 + 3)
  = opposite (at_index (getFixedFootPoints DEFAULT_DIMENSIONS) 1).
Proof.
  assert (Hd : positive_dims DEFAULT_DIMENSIONS)
    by (unfold positive_dims; cbn; lra).
  assert (Hk : (1 < 3)%nat) by lia.
  split; [exact Hd|]. split; [exact Hk|].
  exact (proj1 (@X5_feet_symmetric DEFAULT_DIMENSIONS 1 Hd Hk)).
Defined.

(** X6.  For positive dimensions, with the foot not at the end of the coxa
    ([c] not zero), the shin the solver returns (from the femur joint to the
    foot) has the tibia's length exactly when the foot can be reached.  When
    the foot is too far the femur points at it and the shin is
    [c - femur], longer than the tibia; when it is too near the shin is
    [femur - c] (femur longer than tibia) or [c + femur], shorter than the
    tibia (tibia longer than femur). *)
Theorem X6_shin_length (d : HexapodDimensions R) (pose : BodyPose R)
    (i : nat) (leg : LegConfiguration R) :
  positive_dims d ->
  nth_error (legs (solveHexapodIK d pose)) i = Some leg ->
  let c := dist3 (coxaJoint (joints leg)) (foot (joints leg)) in
  let shin := dist3 (femurJoint (joints leg)) (foot (joints leg)) in
  c <> 0 ->
  (shin = tibia d <-> reachable d c) /\
  (femur d + tibia d < c -> shin = c - femur d /\ tibia d < shin) /\
  (c < femur d - tibia d -> shin = femur d - c /\ tibia d < shin) /\
  (c < tibia d - femur d -> shin = c + femur d /\ shin < tibia d).
Proof.
  intros Hd Hleg. apply solve_legs_nth in Hleg as [Hi ->].
  rewrite legIK_eq. cbn [joints coxaJoint femurJoint foot].
  rewrite c_is_distance. cbn zeta. intros Hc0.
  pose proof (leg_c_nonneg d pose i) as Hc.
  assert (Hcpos : 0 < leg_c d pose i) by lra.
  pose proof (shin_sqr d pose i) as Hsq. cbn zeta in Hsq.
  pose proof (dist3_nonneg (leg_toWorld d pose i (leg_p2 d pose i))
                           (leg_toWorld d pose i (leg_p3 d pose i))) as Hs.
  destruct (cosB_cases pose i Hd Hcpos) as (Hfar & Hnear1 & Hnear2).
  cbn zeta in Hfar, Hnear1, Hnear2.
  destruct Hd as (Hd1 & Hd2 & Hd3 & Hcx & Hf & Ht).
  assert (Hd : positive_dims d) by (repeat split; assumption).
  set (shin := dist3 (leg_toWorld d pose i (leg_p2 d pose i))
                     (leg_toWorld d pose i (leg_p3 d pose i))) in *.
  set (c := leg_c d pose i) in *.
  assert (Cfar : femur d + tibia d < c -> shin = c - femur d /\ tibia d < shin).
  { intros H. rewrite Hfar in Hsq by lra.
    assert (shin = c - femur d) by (apply sqr_eq_nonneg; nra). lra. }
  assert (Cnear1 : c < femur d - tibia d -> shin = femur d - c /\ tibia d < shin).
  { intros H. rewrite Hnear1 in Hsq by lra.
    assert (shin = femur d - c) by (apply sqr_eq_nonneg; nra). lra. }
  assert (Cnear2 : c < tibia d - femur d -> shin = c + femur d /\ shin < tibia d).
  { intros H. rewrite Hnear2 in Hsq by lra.
    assert (shin = c + femur d) by (apply sqr_eq_nonneg; nra). lra. }
  split; [|split; [exact Cfar | split; [exact Cnear1 | exact Cnear2]]].
  split.
  - intros Hshin. split; [exact Hc0|].
    destruct (Rle_lt_dec c (femur d + tibia d)) as [Hle | Hgt];
      [|apply Cfar in Hgt; lra].
    split; [|exact Hle].
    unfold Rabs. destruct (Rcase_abs (femur d - tibia d)).
    + destruct (Rle_lt_dec (tibia d - femur d) c) as [H | H];
        [lra | apply Cnear2 in H; lra].
    + destruct (Rle_lt_dec (femur d - tibia d) c) as [H | H];
        [lra | apply Cnear1 in H; lra].
  - intros Hreach. now apply tibia_segment_length.
Qed.

Lemma X6_witness :
  positive_dims DEFAULT_DIMENSIONS /\
  nth_error (legs (solveHexapodIK DEFAULT_DIMENSIONS DEFAULT_POSE)) 0
    = Some (leg_of DEFAULT_DIMENSIONS DEFAULT_POSE 0) /\
  dist3 (coxaJoint (joints (leg_of DEFAULT_DIMENSIONS DEFAULT_POSE 0)))
        (foot (joints (leg_of DEFAULT_DIMENSIONS DEFAULT_POSE 0))) <> 0 /\
  (dist3 (femurJoint (joints (leg_of DEFAULT_DIMENSIONS DEFAULT_POSE 0)))
         (foot (joints (leg_of DEFAULT_DIMENSIONS DEFAULT_POSE 0)))
   = tibia DEFAULT_DIMENSIONS
   <-> reachable DEFAULT_DIMENSIONS
         (dist3 (coxaJoint (joints (leg_of DEFAULT_DIMENSIONS DEFAULT_POSE 0)))
                (foot (joints (leg_of DEFAULT_DIMENSIONS DEFAULT_POSE 0))))).
Proof.
  assert (Hd : positive_dims DEFAULT_DIMENSIONS)
    by (unfold positive_dims; cbn; lra).
  assert (Hc : dist3 (coxaJoint (joints (leg_of DEFAULT_DIMENSIONS DEFAULT_POSE 0)))
                     (foot (joints (leg_of DEFAULT_DIMENSIONS DEFAULT_POSE 0)))
               <> 0).
  { unfold leg_of. rewrite legIK_eq. cbn [joints coxaJoint foot].
    rewrite c_is_distance.
    pose proof (@c_height_pose_pos DEFAULT_DIMENSIONS 80 0 Hd ltac:(lia)) as H.
    change (height_pose 80) with DEFAULT_POSE in H. lra. }
  split; [exact Hd|]. split; [reflexivity|]. split; [exact Hc|].
  exact (proj1 (@X6_shin_length DEFAULT_DIMENSIONS DEFAULT_POSE 0
                  (leg_of DEFAULT_DIMENSIONS DEFAULT_POSE 0) Hd eq_refl Hc)).
Defined.

(** X7.  For positive dimensions, when the body is only raised or lowered
    (the pose is the identity except for [tz]), every leg points straight
    out (coxa angle 0) and all six legs report the same femur and tibia
    angles. *)
Theorem X7_raised_body_legs_agree (d : HexapodDimensions R) (t : R)
    (i j : nat) (leg_i leg_j : LegConfiguration R) :
  positive_dims d ->
  nth_error (legs (solveHexapodIK d (height_pose t))) i = Some leg_i ->
  nth_error (legs (solveHexapodIK d (height_pose t))) j = Some leg_j ->
  coxaAngle leg_i = 0 /\
  femurAngle leg_i = femurAngle leg_j /\
  tibiaAngle leg_i = tibiaAngle leg_j.
Proof.
  intros Hd Hi Hj.
  apply solve_legs_nth in Hi as [Hi ->].
  apply solve_legs_nth in Hj as [Hj ->].
  rewrite !legIK_eq. cbn [coxaAngle femurAngle tibiaAngle].
  split; [|split].
  - unfold leg_coxaAngle. rewrite vLeg_height_pose by assumption.
    cbn [x y]. real_ops.
    rewrite atan2_pos_axis by now apply legReach_pos.
    apply toDeg_0.
  - now rewrite !femurAngle_height_pose.
  - unfold leg_gammaTri, leg_cosGamma. now rewrite !c_height_pose.
Qed.

Lemma X7_witness :
  positive_dims DEFAULT_DIMENSIONS /\
  nth_error (legs (solveHexapodIK DEFAULT_DIMENSIONS (height_pose 80))) 1
    = Some (leg_of DEFAULT_DIMENSIONS (height_pose 80) 1) /\
  nth_error (legs (solveHexapodIK DEFAULT_DIMENSIONS (height_pose 80))) 5
    = Some (leg_of DEFAULT_DIMENSIONS (height_pose 80) 5) /\
  coxaAngle (leg_of DEFAULT_DIMENSIONS (height_pose 80) 1) = 0 /\
  femurAngle (leg_of DEFAULT_DIMENSIONS (height_pose 80) 1)
  = femurAngle (leg_of DEFAULT_DIMENSIONS (height_pose 80) 5) /\
  tibiaAngle (leg_of DEFAULT_DIMENSIONS (height_pose 80) 1)
  = tibiaAngle (leg_of DEFAULT_DIMENSIONS (height_pose 80) 5).
Proof.
  assert (Hd : positive_dims DEFAULT_DIMENSIONS)
    by (unfold positive_dims; cbn; lra).
  split; [exact Hd|]. split; [reflexivity|]. split; [reflexivity|].
  exact (@X7_raised_body_legs_agree DEFAULT_DIMENSIONS 80 1 5
           (leg_of DEFAULT_DIMENSIONS (height_pose 80) 1)
           (leg_of DEFAULT_DIMENSIONS (height_pose 80) 5) Hd eq_refl eq_refl).
Defined.

(** X8.  For positive dimensions, at the identity pose the foot of every leg
    is [femur + 0.5 * tibia] from the end of its coxa, at the height of the
    hip; the legs can reach their feet exactly when the tibia is at most
    four femurs long. *)
Theorem X8_rest_stance (d : HexapodDimensions R) (i : nat)
    (leg : LegConfiguration R) :
  positive_dims d ->
  nth_error (legs (solveHexapodIK d identity_pose)) i = Some leg ->
  let c := dist3 (coxaJoint (joints leg)) (foot (joints leg)) in
  c = femur d + 0.5 * tibia d /\
  z (coxaJoint (joints leg)) = z (foot (joints leg)) /\
  (reachable d c <-> tibia d <= 4 * femur d).
Proof.
  intros Hd Hleg. apply solve_legs_nth in Hleg as [Hi ->].
  rewrite legIK_eq. cbn [joints coxaJoint foot].
  rewrite c_is_distance, foot_fixed. cbn zeta.
  change identity_pose with (height_pose 0).
  pose proof (rest_reach_pos Hd) as Hr.
  assert (Hc : leg_c d (height_pose 0) i = femur d + 0.5 * tibia d).
  { rewrite c_height_pose by assumption.
    replace (rest_reach d * rest_reach d + 0 * 0)
      with (rest_reach d * rest_reach d) by ring.
    rewrite sqrt_square by lra. unfold rest_reach. ring. }
  split; [exact Hc|]. split.
  - rewrite foot_z by assumption.
    rewrite leg_toWorld_unfold, toWorld_unfold.
    cbn [rx ry rz height_pose translation_pose].
    rewrite toRad_0, rotateX_0, rotateY_0, rotateZ_0.
    cbn [z translate translation rotateZ leg_p1 tz height_pose translation_pose].
    rewrite hip_z. real_ops. ring.
  - rewrite Hc. destruct Hd as (_ & _ & _ & _ & Hf & Ht).
    unfold reachable, Rabs. destruct (Rcase_abs (femur d - tibia d)); split;
      try (intros (_ & H1 & H2); lra); intros H; (split; [lra | lra]).
Qed.

Lemma X8_witness :
  positive_dims DEFAULT_DIMENSIONS /\
  nth_error (legs (solveHexapodIK DEFAULT_DIMENSIONS identity_pose)) 0
    = Some (leg_of DEFAULT_DIMENSIONS identity_pose 0) /\
  dist3 (coxaJoint (joints (leg_of DEFAULT_DIMENSIONS identity_pose 0)))
        (foot (joints (leg_of DEFAULT_DIMENSIONS identity_pose 0)))
  = femur DEFAULT_DIMENSIONS + 0.5 * tibia DEFAULT_DIMENSIONS.
Proof.
  assert (Hd : positive_dims DEFAULT_DIMENSIONS)
    by (unfold positive_dims; cbn; lra).
  split; [exact Hd|]. split; [reflexivity|].
  exact (proj1 (@X8_rest_stance DEFAULT_DIMENSIONS 0
                  (leg_of DEFAULT_DIMENSIONS identity_pose 0) Hd eq_refl)).
Defined.

(** ** The components that show the result *)



(** X10.  The names of the telemetry panel follow the hips of the solver:
    for positive widths, the name shown for a leg of the result is an entry
    of [LEG_NAMES], made of the side ("Right" when the hip has [x > 0],
    "Left" when [x < 0]) and the row ("Front" when [y < 0], "Middle" when
    [y = 0], "Back" when [y > 0]) of that leg's hip.  The numbered name
    [Leg n] is what an id from 6 on would get; no leg of the result has
    one. *)
Theorem X10_leg_names (d : HexapodDimensions R) (pose : BodyPose R)
    (i : nat) (leg : LegConfiguration R) :
  0 < front d -> 0 < side d -> 0 < middle d ->
  nth_error (legs (solveHexapodIK d pose)) i = Some leg ->
  let hip := at_index (getLocalBodyPoints d) (legId leg) in
  In (DataPanel.legName (legId leg)) DataPanel.LEG_NAMES /\
  (exists side_word row_word,
     DataPanel.legName (legId leg) = DataPanel.two_words side_word row_word /\
     (side_word = DataPanel.RIGHT /\ is_right hip \/
      side_word = DataPanel.LEFT /\ is_left hip) /\
     (row_word = DataPanel.FRONT /\ is_front hip \/
      row_word = DataPanel.MIDDLE /\ is_middle hip \/
      row_word = DataPanel.BACK /\ is_back hip)) /\
  (forall n : nat, (6 <= n)%nat ->
     DataPanel.legName n = DataPanel.numberedName n).
Proof.
  intros Hf Hs Hm Hleg. apply solve_legs_nth in Hleg as [Hi ->].
  rewrite legIK_eq. cbn [legId]. cbn zeta.
  split; [|split].
  - do 6 (destruct i as [|i]; [cbn; tauto|]). lia.
  - unfold is_right, is_left, is_front, is_middle, is_back.
    destruct i as [|[|[|[|[|[|i]]]]]]; [ | | | | | | lia];
      cbn [at_index nth getLocalBodyPoints x y]; real_ops.
    + exists DataPanel.RIGHT, DataPanel.MIDDLE.
      split; [reflexivity|]. split; [left | right; left]; split; trivial; lra.
    + exists DataPanel.RIGHT, DataPanel.FRONT.
      split; [reflexivity|]. split; [left | left]; split; trivial; lra.
    + exists DataPanel.LEFT, DataPanel.FRONT.
      split; [reflexivity|]. split; [right | left]; split; trivial; lra.
    + exists DataPanel.LEFT, DataPanel.MIDDLE.
      split; [reflexivity|]. split; [right | right; left]; split; trivial; lra.
    + exists DataPanel.LEFT, DataPanel.BACK.
      split; [reflexivity|]. split; [right | right; right]; split; trivial; lra.
    + exists DataPanel.RIGHT, DataPanel.BACK.
      split; [reflexivity|]. split; [left | right; right]; split; trivial; lra.
  - intros n Hn. unfold DataPanel.legName.
    assert (E : nth_error DataPanel.LEG_NAMES n = None)
      by (apply nth_error_None; cbn; lia).
    rewrite E. reflexivity.
Qed.

Lemma X10_witness :
  0 < front DEFAULT_DIMENSIONS /\ 0 < side DEFAULT_DIMENSIONS /\
  0 < middle DEFAULT_DIMENSIONS /\
  nth_error (legs (solveHexapodIK DEFAULT_DIMENSIONS DEFAULT_POSE)) 4
    = Some (leg_of DEFAULT_DIMENSIONS DEFAULT_POSE 4) /\
  In (DataPanel.legName (legId (leg_of DEFAULT_DIMENSIONS DEFAULT_POSE 4)))
     DataPanel.LEG_NAMES.
Proof.
  assert (Hf : 0 < front DEFAULT_DIMENSIONS) by (cbn; lra).
  assert (Hs : 0 < side DEFAULT_DIMENSIONS) by (cbn; lra).
  assert (Hm : 0 < middle DEFAULT_DIMENSIONS) by (cbn; lra).
  split; [exact Hf|]. split; [exact Hs|]. split; [exact Hm|].
  split; [reflexivity|].
  exact (proj1 (@X10_leg_names DEFAULT_DIMENSIONS DEFAULT_POSE 4
                  (leg_of DEFAULT_DIMENSIONS DEFAULT_POSE 4)
                  Hf Hs Hm eq_refl)).
Defined.

(** X11.  [toVec3], which sends the solver's coordinates to those of the
    scene, is the quarter turn about the X axis (the rotation by -90
    degrees): nothing is mirrored, the ground [z = 0] becomes the scene's
    floor, distances are kept, and the place of a strut is the image of the
    middle of its segment. *)
Theorem X11_toVec3_quarter_turn (p q : Point3D R) :
  Hexapod3D.toVec3 p
  = (x (rotateX p (toRad (-90))), y (rotateX p (toRad (-90))),
     z (rotateX p (toRad (-90)))) /\
  Hexapod3D.toVec3 p = (x p, z p, - y p) /\
  Hexapod3D.Strut_dist p q = dist3 p q /\
  Hexapod3D.Strut_mid p q
  = Hexapod3D.toVec3 {| x := (x p + x q) * 0.5;
                        y := (y p + y q) * 0.5;
                        z := (z p + z q) * 0.5 |}.
Proof.
  assert (Hq : toRad (-90) = - (PI / 2)).
  { unfold toRad, MathPI. real_ops. field. }
  split; [|split; [reflexivity | split; [apply Strut_dist_dist3 |]]].
  - rewrite Hq. unfold Hexapod3D.toVec3. cbn [x y z rotateX]. real_ops.
    rewrite cos_neg, sin_neg, cos_PI2, sin_PI2.
    f_equal; [f_equal|]; ring.
  - unfold Hexapod3D.Strut_mid, Hexapod3D.midpoint, Hexapod3D.toVec3.
    cbn [x y z]. real_ops. f_equal. ring.
Qed.

(** X12.  In exact real arithmetic, for positive dimensions and any pose:
    the first segment drawn for a leg of the result has the coxa's length
    and the foot is drawn on the floor of the scene (height 0); where the
    foot is not at the end of the coxa ([c] not zero) the segments have, in
    order, the lengths coxa, femur, femur and that of the shin, which is
    the tibia's when the foot can be reached. *)
Theorem X12_leg_assembly (d : HexapodDimensions R) (pose : BodyPose R)
    (i : nat) (leg : LegConfiguration R) :
  positive_dims d ->
  nth_error (legs (solveHexapodIK d pose)) i = Some leg ->
  let c := dist3 (coxaJoint (joints leg)) (foot (joints leg)) in
  let shin := dist3 (femurJoint (joints leg)) (foot (joints leg)) in
  let lengths :=
    map (fun segment => Hexapod3D.Strut_dist (fst segment) (snd segment))
        (Hexapod3D.LegAssembly leg) in
  hd_error lengths = Some (coxa d) /\
  Hexapod3D.toVec3 (foot (joints leg))
  = (x (foot (joints leg)), 0, - y (foot (joints leg))) /\
  (c <> 0 ->
   lengths = [coxa d; femur d; femur d; shin] /\
   (reachable d c -> shin = tibia d)).
Proof.
  intros Hd Hleg. pose proof Hleg as Hnth.
  apply solve_legs_nth in Hleg as [Hi ->].
  destruct (segment_lengths pose i Hd Hnth) as [Hcoxa Hfemur].
  cbn zeta. split; [|split].
  - unfold Hexapod3D.LegAssembly. cbn [map fst snd hd_error].
    rewrite Strut_dist_dist3, Hcoxa. reflexivity.
  - rewrite legIK_eq. cbn [joints foot]. rewrite foot_fixed.
    unfold Hexapod3D.toVec3. real_ops. rewrite foot_z by assumption.
    reflexivity.
  - intros _. split.
    + unfold Hexapod3D.LegAssembly. cbn [map fst snd].
      rewrite !Strut_dist_dist3, Hcoxa, Hfemur. reflexivity.
    + rewrite legIK_eq. cbn [joints coxaJoint femurJoint foot].
      rewrite c_is_distance. intros Hreach. now apply tibia_segment_length.
Qed.

Lemma X12_witness :
  positive_dims DEFAULT_DIMENSIONS /\
  nth_error (legs (solveHexapodIK DEFAULT_DIMENSIONS DEFAULT_POSE)) 1
    = Some (leg_of DEFAULT_DIMENSIONS DEFAULT_POSE 1) /\
  dist3 (coxaJoint (joints (leg_of DEFAULT_DIMENSIONS DEFAULT_POSE 1)))
        (foot (joints (leg_of DEFAULT_DIMENSIONS DEFAULT_POSE 1))) <> 0 /\
  map (fun segment => Hexapod3D.Strut_dist (fst segment) (snd segment))
      (Hexapod3D.LegAssembly (leg_of DEFAULT_DIMENSIONS DEFAULT_POSE 1))
  = [coxa DEFAULT_DIMENSIONS; femur DEFAULT_DIMENSIONS;
     femur DEFAULT_DIMENSIONS;
     dist3 (femurJoint (joints (leg_of DEFAULT_DIMENSIONS DEFAULT_POSE 1)))
           (foot (joints (leg_of DEFAULT_DIMENSIONS DEFAULT_POSE 1)))].
Proof.
  assert (Hc : dist3 (coxaJoint (joints (leg_of DEFAULT_DIMENSIONS DEFAULT_POSE 1)))
                     (foot (joints (leg_of DEFAULT_DIMENSIONS DEFAULT_POSE 1)))
               <> 0).
  { unfold leg_of. rewrite legIK_eq. cbn [joints coxaJoint foot].
    rewrite c_is_distance.
    pose proof (@c_height_pose_pos DEFAULT_DIMENSIONS 80 1 positive_default
                  ltac:(lia)) as H.
    change (height_pose 80) with DEFAULT_POSE in H. lra. }
  split; [exact positive_default|]. split; [reflexivity|]. split; [exact Hc|].
  exact (proj1 (proj2 (proj2
    (@X12_leg_assembly DEFAULT_DIMENSIONS DEFAULT_POSE 1
       (leg_of DEFAULT_DIMENSIONS DEFAULT_POSE 1) positive_default eq_refl))
    Hc)).
Defined.

(** X13.  In exact real arithmetic the centroid [Chassis] computes from the
    body corners of the result is the translation of the pose, for every
    dimensions and pose; of an empty list of corners it is [NaN] in each
    coordinate (a division of zero by zero). *)
Theorem X13_chassis_centroid (d : HexapodDimensions R) (pose : BodyPose R) :
  Hexapod3D.centroid (bodyCorners (solveHexapodIK d pose))
  = {| x := tx pose; y := ty pose; z := tz pose |} /\
  Hexapod3D.centroid (@nil (Point3D jsnum)) = nan_point.
Proof.
  split; [apply centroid_bodyCorners|].
  unfold Hexapod3D.centroid, nan_point. cbv zeta. cbn [fold_left length INR].
  cbn [x y z lit ndiv js_number].
  assert (E : jdiv (Fin 0) (Fin 0) = NaN).
  { unfold jdiv, inf_of_sign. destruct (Req_dec_T 0 0); [|congruence].
    repeat (destruct (Rlt_dec _ _); try lra). reflexivity. }
  rewrite E. reflexivity.
Qed.

(** X14.  The frame [Chassis] draws is a closed chain: the perimeter strut
    of corner [i] ends at corner [(i + 1) mod n], for any list of corners.
    For positive dimensions the six perimeter struts of the result have the
    lengths of the sides of the hexagon of the hips, and the six spokes the
    distances of the hips from the body center, whatever the pose: the body
    is moved as a rigid piece. *)
Theorem X14_chassis_frame (d : HexapodDimensions R) (pose : BodyPose R) :
  positive_dims d ->
  let corners := bodyCorners (solveHexapodIK d pose) in
  let edge := sqrt ((side d - middle d) * (side d - middle d)
                    + front d * front d) in
  let corner := sqrt (side d * side d + front d * front d) in
  let strut_length :=
    fun segment : Point3D R * Point3D R =>
      Hexapod3D.Strut_dist (fst segment) (snd segment) in
  (forall (l : list (Point3D R)) (i : nat), (i < length l)%nat ->
     nth_error (Hexapod3D.perimeter l) i
     = Some (at_index l i, at_index l ((i + 1) mod length l))) /\
  map strut_length (Hexapod3D.perimeter corners)
  = [edge; 2 * side d; edge; edge; 2 * side d; edge] /\
  map strut_length (Hexapod3D.spokes corners)
  = [middle d; corner; corner; middle d; corner; corner].
Proof.
  intros Hd. cbn zeta. split; [intros l i; apply perimeter_nth|].
  destruct (hip_edges Hd) as (E01 & E12 & E23 & E34 & E45 & E50).
  cbn zeta in E01, E23, E34, E50.
  split.
  - rewrite solve_bodyCorners. cbn [map]. rewrite perimeter_six.
    cbn [map fst snd]. rewrite !Strut_dist_dist3, !dist3_toWorld.
    rewrite E01, E12, E23, E34, E45, E50. reflexivity.
  - unfold Hexapod3D.spokes. rewrite centroid_bodyCorners.
    rewrite solve_bodyCorners, !map_map. cbn [fst snd].
    rewrite <- (hip_radii Hd).
    apply map_ext. intros i.
    rewrite Strut_dist_dist3, <- toWorld_origin, dist3_toWorld.
    apply dist3_origin_radius_hip.
Qed.

Lemma X14_witness :
  positive_dims DEFAULT_DIMENSIONS /\
  map (fun segment : Point3D R * Point3D R =>
         Hexapod3D.Strut_dist (fst segment) (snd segment))
      (Hexapod3D.perimeter
         (bodyCorners (solveHexapodIK DEFAULT_DIMENSIONS DEFAULT_POSE)))
  = [sqrt ((side DEFAULT_DIMENSIONS - middle DEFAULT_DIMENSIONS)
           * (side DEFAULT_DIMENSIONS - middle DEFAULT_DIMENSIONS)
           + front DEFAULT_DIMENSIONS * front DEFAULT_DIMENSIONS);
     2 * side DEFAULT_DIMENSIONS;
     sqrt ((side DEFAULT_DIMENSIONS - middle DEFAULT_DIMENSIONS)
           * (side DEFAULT_DIMENSIONS - middle DEFAULT_DIMENSIONS)
           + front DEFAULT_DIMENSIONS * front DEFAULT_DIMENSIONS);
     sqrt ((side DEFAULT_DIMENSIONS - middle DEFAULT_DIMENSIONS)
           * (side DEFAULT_DIMENSIONS - middle DEFAULT_DIMENSIONS)
           + front DEFAULT_DIMENSIONS * front DEFAULT_DIMENSIONS);
     2 * side DEFAULT_DIMENSIONS;
     sqrt ((side DEFAULT_DIMENSIONS - middle DEFAULT_DIMENSIONS)
           * (side DEFAULT_DIMENSIONS - middle DEFAULT_DIMENSIONS)
           + front DEFAULT_DIMENSIONS * front DEFAULT_DIMENSIONS)].
Proof.
  assert (Hd : positive_dims DEFAULT_DIMENSIONS)
    by (unfold positive_dims; cbn; lra).
  split; [exact Hd|].
  exact (proj1 (proj2 (@X14_chassis_frame DEFAULT_DIMENSIONS DEFAULT_POSE Hd))).
Defined.

(** ** The state of the application *)

(** X15.  Whatever the user does with sliders that stay within their
    [min] and [max], with RESET and with the panel's header, from the
    initial state on, every dimension and every pose value of the state is
    within the range of its slider; so the dimensions given to the solver
    are positive (at least 50 for the widths, 20 for the segments). *)
Theorem X15_sliders_keep_ranges (events : list App.Event) :
  Forall App.from_slider events ->
  let st := App.run App.initial events in
  (forall key : Controls.DimensionKey,
      Controls.within (Controls.dimension_range key)
                      (App.getDimension (App.dimensions st) key)) /\
  (forall key : Controls.PoseKey,
      Controls.within (Controls.pose_range key)
                      (App.getPose (App.pose st) key)) /\
  positive_dims (App.dimensions st) /\
  App.hexapodConfig st = solveHexapodIK (App.dimensions st) (App.pose st).
Proof.
  intros Hevs. cbn zeta.
  pose proof (@run_in_ranges events App.initial initial_in_ranges Hevs) as Hin.
  destruct Hin as [Hdim Hpose].
  split; [exact Hdim|]. split; [exact Hpose|].
  split; [|reflexivity].
  apply in_ranges_positive. split; assumption.
Qed.

Lemma X15_witness :
  Forall App.from_slider
    [App.DimensionChange Controls.k_femur 60; App.PoseChange Controls.k_tx 90] /\
  positive_dims
    (App.dimensions
       (App.run App.initial
          [App.DimensionChange Controls.k_femur 60;
           App.PoseChange Controls.k_tx 90])).
Proof.
  assert (H : Forall App.from_slider
                [App.DimensionChange Controls.k_femur 60;
                 App.PoseChange Controls.k_tx 90]).
  { repeat constructor; cbn; lra. }
  split; [exact H|].
  exact (proj1 (proj2 (proj2 (@X15_sliders_keep_ranges _ H)))).
Defined.

(** X16.  The keys of the state are independent, and the last write wins:
    after any list of events, a dimension (or a pose value) is the value of
    the last change of that key since the last RESET, the default if RESET
    came last, and its value at the start if there was neither.  RESET does
    not touch the panel: it is open exactly when its header was clicked an
    even number of times, if it was open at the start. *)
Theorem X16_last_write_wins (st : App.State) (events : list App.Event) :
  (forall key : Controls.DimensionKey,
      App.getDimension (App.dimensions (App.run st events)) key
      = App.last_dimension key events (App.getDimension (App.dimensions st) key)) /\
  (forall key : Controls.PoseKey,
      App.getPose (App.pose (App.run st events)) key
      = App.last_pose key events (App.getPose (App.pose st) key)) /\
  App.isDataPanelOpen (App.run st events)
  = (if Nat.even (App.toggles events) then App.isDataPanelOpen st
     else negb (App.isDataPanelOpen st)).
Proof.
  revert st. induction events as [|ev events IH]; intros st.
  - repeat split.
  - destruct (IH (App.handle st ev)) as (IHd & IHp & IHo).
    unfold App.run in *. cbn [fold_left].
    split; [|split].
    + intros key. rewrite IHd.
      destruct ev; cbn [App.handle App.dimensions App.last_dimension];
        try reflexivity.
      now rewrite getDimension_setDimension.
    + intros key. rewrite IHp.
      destruct ev; cbn [App.handle App.pose App.last_pose];
        try reflexivity.
      now rewrite getPose_setPose.
    + rewrite IHo.
      destruct ev; cbn [App.handle App.isDataPanelOpen App.toggles];
        try reflexivity.
      rewrite Nat.even_succ, <- Nat.negb_even.
      destruct (Nat.even (App.toggles events)), (App.isDataPanelOpen st);
        reflexivity.
Qed.

(** X17.  The foot at the end of the coxa.  In exact real arithmetic, for
    positive dimensions and each leg, at the pose that moves the body,
    without turning it, by femur plus half the tibia along the leg's
    direction, the foot is at the end of the leg's coxa: [reach], [height]
    and [c] are zero, and so is the divisor [2 * dims.femur * c] of
    [cosBeta]. *)
Theorem X17_foot_at_coxa_end (d : HexapodDimensions R) (i : nat)
    (leg : LegConfiguration R) :
  positive_dims d ->
  nth_error (legs (solveHexapodIK d (fold_pose d i))) i = Some leg ->
  coxaJoint (joints leg) = foot (joints leg) /\
  leg_reach d (fold_pose d i) i = 0 /\
  leg_height d (fold_pose d i) i = 0 /\
  leg_c d (fold_pose d i) i = 0 /\
  2 * femur d * leg_c d (fold_pose d i) i = 0.
Proof.
  intros Hd Hleg. apply solve_legs_nth in Hleg as [Hi ->].
  pose proof Hd as (_ & _ & _ & Hc & _).
  pose proof (c_fold_pose d Hc Hi) as Hc0.
  split; [|split; [|split; [|split]]].
  - rewrite legIK_eq. cbn [joints coxaJoint foot].
    f_equal. rewrite leg_p3_vLeg, vLeg_fold_pose by assumption.
    unfold leg_p1, leg_coxaAngle. rewrite vLeg_fold_pose by assumption.
    cbn [x y]. real_ops.
    rewrite atan2_pos_axis, cos_0, sin_0 by assumption.
    apply point3D_eq; cbn [x y z]; ring.
  - exact (proj1 (@c_zero_reach_height d (fold_pose d i) i Hc0)).
  - exact (proj2 (@c_zero_reach_height d (fold_pose d i) i Hc0)).
  - exact Hc0.
  - rewrite Hc0. ring.
Qed.

Lemma X17_witness :
  positive_dims FOLDED_DIMENSIONS /\
  nth_error (legs (solveHexapodIK FOLDED_DIMENSIONS
                                  (fold_pose FOLDED_DIMENSIONS 0))) 0
    = Some (leg_of FOLDED_DIMENSIONS (fold_pose FOLDED_DIMENSIONS 0) 0) /\
  coxaJoint (joints (leg_of FOLDED_DIMENSIONS (fold_pose FOLDED_DIMENSIONS 0) 0))
  = foot (joints (leg_of FOLDED_DIMENSIONS (fold_pose FOLDED_DIMENSIONS 0) 0)).
Proof.
  split; [exact positive_folded|]. split; [reflexivity|].
  exact (proj1 (@X17_foot_at_coxa_end FOLDED_DIMENSIONS 0
                  (leg_of FOLDED_DIMENSIONS (fold_pose FOLDED_DIMENSIONS 0) 0)
                  positive_folded eq_refl)).
Defined.
